(** * Component-testing mount bridge: [packages/playwright-ct-core/src/mount.ts]

    A shallow embedding of the controller half ([createComponent],
    [wrapFunctions], [innerMount], [innerUpdate], the [mount] fixture and the
    exposed [__ct_dispatch] binding) and of the two scripts that the
    controller evaluates in the page ([unwrapFunctions], root element lookup
    and creation, calls into the framework stub).

    Representation choices.
    - A JavaScript value is a tree.  An object is the list of its own
      enumerable string-keyed properties in the order [Object.entries]
      reports them; an array is such an object whose keys are its indices.
      Two occurrences of an object in a tree are two objects: the embedding
      covers acyclic, unshared inputs.
    - The code mutates objects in place.  Here every function returns the
      object it mutated, and a loop that recurses into a child writes the
      mutated child back under its key.
    - Values of the test process and values of the page are the same trees
      over two kinds of functions: opaque function identities in the test
      process, dispatching closures in the page.  Calling a function of the
      test process is recorded as an [Invoke] event. *)

From Stdlib Require Import List String Ascii Bool Arith NArith ZArith Lia.
From Stdlib Require Import DecimalString DecimalNat DecimalN.
Import ListNotations.
Local Open Scope string_scope.
Local Open Scope list_scope.

(** ** JavaScript values *)

(** A Number: an integer, or any other double ([NaN], a fraction, an
    infinity), kept as the text that denotes it. *)
Inductive number :=
| Int (z : Z)
| NonInt (lit : string).

(** Values over functions of type [F]. *)
Unset Elimination Schemes.
Inductive value (F : Type) :=
| VUndefined
| VNull
| VBool (b : bool)
| VNum (n : number)
| VStr (s : string)
| VFunc (f : F)
| VObj (fields : list (string * value F)).
Set Elimination Schemes.

Arguments VUndefined {F}.
Arguments VNull {F}.
Arguments VBool {F} b.
Arguments VNum {F} n.
Arguments VStr {F} s.
Arguments VFunc {F} f.
Arguments VObj {F} fields.

(** Own enumerable properties, in enumeration order. *)
Abbreviation props F := (list (string * value F)).

Section ValueInduction.
Variable F : Type.
Variable P : value F -> Prop.
Hypothesis P_undefined : P VUndefined.
Hypothesis P_null : P VNull.
Hypothesis P_bool : forall b, P (VBool b).
Hypothesis P_num : forall n, P (VNum n).
Hypothesis P_str : forall s, P (VStr s).
Hypothesis P_func : forall f, P (VFunc f).
Hypothesis P_obj :
  forall fields, Forall (fun kv => P (snd kv)) fields -> P (VObj fields).

Fixpoint value_ind (v : value F) : P v :=
  match v with
  | VUndefined => P_undefined
  | VNull => P_null
  | VBool b => P_bool b
  | VNum n => P_num n
  | VStr s => P_str s
  | VFunc f => P_func f
  | VObj fields =>
      P_obj fields ((fix all (l : props F) : Forall (fun kv => P (snd kv)) l :=
                match l with
                | [] => Forall_nil _
                | kv :: l' => Forall_cons kv (value_ind (snd kv)) (all l')
                end) fields)
  end.
End ValueInduction.

(** Identity of a function living in the test process. *)
Definition fn := nat.

(** The arrow function [(...args) => { window.__ct_dispatch(ordinal, args) }]
    that [unwrapFunctions] creates in the page. *)
Inductive closure :=
| Dispatcher (ordinal : number).

(** Values of the test process and values of the page. *)
Abbreviation cvalue := (value fn).
Abbreviation rvalue := (value closure).

(** [typeof value] *)
Definition typeof {F} (v : value F) : string :=
  match v with
  | VUndefined => "undefined"
  | VNull => "object"
  | VBool _ => "boolean"
  | VNum _ => "number"
  | VStr _ => "string"
  | VFunc _ => "function"
  | VObj _ => "object"
  end.

(** [typeof value === 'object' && value]: [null] is the one falsy value
    whose type is ['object']. *)
Definition is_object {F} (v : value F) : bool :=
  String.eqb (typeof v) "object" && match v with VNull => false | _ => true end.

(** ** Strings and numbers *)

(** [String(n)] for a non-negative integer [n]. *)
Definition decimal (n : nat) : string :=
  NilEmpty.string_of_uint (Nat.to_uint n).

(** [s.startsWith(p)] *)
Definition startsWith (s p : string) : bool := String.prefix p s.

(** [s.substring(n)]: [s] without its first [n] characters. *)
Fixpoint substring_from (n : nat) (s : string) : string :=
  match n, s with
  | O, _ => s
  | S n', String _ s' => substring_from n' s'
  | S _, EmptyString => EmptyString
  end.

Definition is_digit (c : ascii) : bool :=
  let n := nat_of_ascii c in ((48 <=? n) && (n <=? 57))%nat.

Fixpoint all_digits (s : string) : bool :=
  match s with
  | EmptyString => true
  | String c s' => is_digit c && all_digits s'
  end.

Fixpoint value_of_digits (acc : N) (s : string) : N :=
  match s with
  | EmptyString => acc
  | String c s' => value_of_digits (10 * acc + (N_of_ascii c - 48))%N s'
  end.

(** Array index of a property key: the key is the canonical decimal text of
    an integer below [2^32 - 1].  Such keys are enumerated first, in
    ascending order; all other keys follow in insertion order. *)
Definition array_index (key : string) : option N :=
  match key with
  | EmptyString => None
  | _ =>
      if all_digits key then
        let n := value_of_digits 0 key in
        if String.eqb (NilEmpty.string_of_uint (N.to_uint n)) key
           && (n <? 4294967295)%N
        then Some n else None
      else None
  end.

(** ** Own properties *)

(** [object[key]] on the properties of an object; [None] when there is no
    such own property. *)
Fixpoint get_prop {F} (key : string) (o : props F) : option (value F) :=
  match o with
  | [] => None
  | (k, v) :: rest => if String.eqb k key then Some v else get_prop key rest
  end.

Definition has_prop {F} (key : string) (o : props F) : bool :=
  match get_prop key o with Some _ => true | None => false end.

(** Overwrite an existing own property, keeping its position. *)
Fixpoint replace_prop {F} (key : string) (v : value F) (o : props F) : props F :=
  match o with
  | [] => []
  | (k, x) :: rest =>
      if String.eqb k key then (k, v) :: rest
      else (k, x) :: replace_prop key v rest
  end.

(** Position of a new array-index key [i]: before the first key that is a
    larger index or not an index at all. *)
Fixpoint insert_index {F} (i : N) (key : string) (v : value F) (o : props F)
  : props F :=
  match o with
  | [] => [(key, v)]
  | (k, x) :: rest =>
      match array_index k with
      | Some j => if (j <? i)%N then (k, x) :: insert_index i key v rest
                  else (key, v) :: o
      | None => (key, v) :: o
      end
  end.

(** Create a new own property. *)
Definition add_prop {F} (key : string) (v : value F) (o : props F) : props F :=
  match array_index key with
  | Some i => insert_index i key v o
  | None => o ++ [(key, v)]
  end.

(** [object[key] = v] *)
Definition set_prop {F} (key : string) (v : value F) (o : props F) : props F :=
  if has_prop key o then replace_prop key v o else add_prop key v o.

(** Characters of a string as index-keyed properties. *)
Fixpoint string_entries {F} (i : nat) (s : string) : props F :=
  match s with
  | EmptyString => []
  | String c s' =>
      (decimal i, VStr (String c EmptyString)) :: string_entries (S i) s'
  end.

(** Own enumerable properties copied by an object spread [...v]: those of an
    object, the characters of a string, nothing for any other value. *)
Definition spread_entries {F} (v : value F) : props F :=
  match v with
  | VObj o => o
  | VStr s => string_entries 0 s
  | _ => []
  end.

(** ** Errors *)

Inductive error :=
| TypeError
| TimeoutError
| ConfigError
| Rejected (reason : string).

Inductive result (A : Type) :=
| Ok (a : A)
| Throw (e : error).

Arguments Ok {A} a.
Arguments Throw {A} e.

(** [v.key]: throws on [null] and [undefined]; a missing property reads as
    [undefined], and so does any property of a primitive or of a function
    of this model. *)
Definition member {F} (key : string) (v : value F) : result (value F) :=
  match v with
  | VUndefined | VNull => Throw TypeError
  | VObj o => Ok (match get_prop key o with Some x => x | None => VUndefined end)
  | _ => Ok VUndefined
  end.

(** ** Descriptor builder *)

(** [v === 'jsx'] *)
Definition is_jsx_tag {F} (v : value F) : bool :=
  match v with
  | VStr s => String.eqb s "jsx"
  | _ => false
  end.

(** [typeof component === 'object' && component && component.__pw_type === 'jsx'] *)
Definition isJsxComponent {F} (component : value F) : bool :=
  is_object component
  && match member "__pw_type" component with
     | Ok tag => is_jsx_tag tag
     | Throw _ => false
     end.

(** The object literal [{ ...fields, ...options }]: the properties of
    [options] are defined one by one on the object under construction. *)
Definition spread_onto {F} (fields : props F) (options : value F) : props F :=
  fold_left (fun o kv => set_prop (fst kv) (snd kv) o) (spread_entries options) fields.

(** A parameter that defaults to [{}]: the default applies when the argument
    is [undefined]. *)
Definition default_empty {F} (options : value F) : value F :=
  match options with
  | VUndefined => VObj []
  | _ => options
  end.

(** [createComponent(component, options = {})] *)
Definition createComponent {F} (component : value F) (options : value F)
  : result (value F) :=
  let options := default_empty options in
  match member "__pw_type" component with
  | Throw e => Throw e
  | Ok tag =>
      if is_jsx_tag tag then Ok component
      else Ok (VObj (spread_onto [("__pw_type", VStr "object-component");
                                  ("type", component)] options))
  end.

(** ** Function marshaller *)

(** ['__pw_func_' + ordinal] *)
Definition functionName (ordinal : nat) : string := "__pw_func_" ++ decimal ordinal.

Section WrapLoop.
(** The recursive call of the loop body. *)
Variable recurse : cvalue -> list fn -> result (cvalue * list fn).

(** [for (const [key, value] of Object.entries(object))]: [entries] is the
    snapshot being iterated, [object] the object being mutated.  The first
    branch is [typeof value === 'function'], the second
    [typeof value === 'object' && value]: the child object is mutated by
    the recursive call and stays under its key. *)
Fixpoint wrap_entries (entries : props fn) (object : props fn) (callbacks : list fn)
  : result (props fn * list fn) :=
  match entries with
  | [] => Ok (object, callbacks)
  | (key, value) :: rest =>
      match value with
      | VFunc f =>
          let functionName := functionName (List.length callbacks) in
          let callbacks := callbacks ++ [f] in
          wrap_entries rest (set_prop key (VStr functionName) object) callbacks
      | _ =>
          if is_object value then
            match recurse value callbacks with
            | Ok (value', callbacks) =>
                wrap_entries rest (set_prop key value' object) callbacks
            | Throw e => Throw e
            end
          else wrap_entries rest object callbacks
      end
  end.
End WrapLoop.

(** [wrapFunctions(object, page, callbacks)]; the [page] argument is not
    used by the body.  [Object.entries] throws on [null] and [undefined];
    the entries of a primitive hold no function and no object. *)
Fixpoint wrapFunctions (object : cvalue) (callbacks : list fn)
  : result (cvalue * list fn) :=
  match object with
  | VObj fields =>
      match wrap_entries wrapFunctions fields fields callbacks with
      | Ok (fields', callbacks) => Ok (VObj fields', callbacks)
      | Throw e => Throw e
      end
  | VUndefined | VNull => Throw TypeError
  | _ => Ok (object, callbacks)
  end.

(** ** Registry and dispatch binding *)

(** A call of a function of the test process. *)
Inductive event :=
| Invoke (f : fn) (args : list cvalue).

(** [callbacks[ordinal]]: only a non-negative integer below the length names
    an element; every other number reads [undefined]. *)
Definition element_at (callbacks : list fn) (ordinal : number) : option fn :=
  match ordinal with
  | Int z => if (0 <=? z)%Z then nth_error callbacks (Z.to_nat z) else None
  | NonInt _ => None
  end.

(** The function exposed to the page as [__ct_dispatch]:
    [boundCallbacksForMount[ordinal](...args)].  Calling [undefined] throws a
    [TypeError]. *)
Definition __ct_dispatch (boundCallbacksForMount : list fn)
  (ordinal : number) (args : list cvalue) : result (list event) :=
  match element_at boundCallbacksForMount ordinal with
  | Some f => Ok [Invoke f args]
  | None => Throw TypeError
  end.

(** ** The page *)

Record element := { tagName : string; id : string }.

(** Modelled from the spec: the framework stub installed in the page
    ([window.playwrightMount], [window.playwrightUpdate],
    [window.playwrightUnmount]), which lives outside this file.  A call is
    recorded with its arguments and is taken to resolve; an element is named
    by its position in document order. *)
Inductive call :=
| PlaywrightMount (component : rvalue) (rootElement : nat) (hooksConfig : rvalue)
| PlaywrightUpdate (rootElement : option nat) (component : rvalue)
| PlaywrightUnmount (rootElement : option nat).

Record page := {
  playwrightMount : bool;      (* [!!window.playwrightMount] *)
  document : list element;     (* the elements, in document order *)
  calls : list call            (* calls received by the framework stub *)
}.

Fixpoint find_id (name : string) (pos : nat) (doc : list element) : option nat :=
  match doc with
  | [] => None
  | e :: rest => if String.eqb (id e) name then Some pos else find_id name (S pos) rest
  end.

(** [document.getElementById(name)] *)
Definition getElementById (name : string) (doc : list element) : option nat :=
  find_id name 0 doc.

(** Modelled from the spec: the transfer channel of [page.evaluate], which
    lives outside this file.  It carries plain data as it is and cannot carry
    a function. *)
Fixpoint transfer {F G} (v : value F) : option (value G) :=
  match v with
  | VUndefined => Some VUndefined
  | VNull => Some VNull
  | VBool b => Some (VBool b)
  | VNum n => Some (VNum n)
  | VStr s => Some (VStr s)
  | VFunc _ => None
  | VObj fields =>
      option_map VObj
        ((fix each (l : props F) : option (props G) :=
            match l with
            | [] => Some []
            | (k, x) :: l' =>
                match transfer x, each l' with
                | Some x', Some l'' => Some ((k, x') :: l'')
                | _, _ => None
                end
            end) fields)
  end.

Section Remote.
(** [+s], the conversion of a string to a Number. *)
Variable ToNumber : string -> number.
(** Modelled from the spec: [window.__pwRegistry.resolveImports], which
    lives outside this file.  It substitutes live types for the import
    references of a component, or rejects ([None]). *)
Variable resolveImports : rvalue -> option rvalue.

Section UnwrapLoop.
Variable recurse : rvalue -> result rvalue.

Fixpoint unwrap_entries (entries : props closure) (object : props closure)
  : result (props closure) :=
  match entries with
  | [] => Ok object
  | (key, value) :: rest =>
      match value with
      | VStr s =>
          if startsWith s "__pw_func_" then
            let ordinal := ToNumber (substring_from (String.length "__pw_func_") s) in
            unwrap_entries rest (set_prop key (VFunc (Dispatcher ordinal)) object)
          else unwrap_entries rest object
      | _ =>
          if is_object value then
            match recurse value with
            | Ok value' => unwrap_entries rest (set_prop key value' object)
            | Throw e => Throw e
            end
          else unwrap_entries rest object
      end
  end.
End UnwrapLoop.

(** [unwrapFunctions(object)], declared with the same text in the script of
    [innerMount] and in the script of [innerUpdate]. *)
Fixpoint unwrapFunctions (object : rvalue) : result rvalue :=
  match object with
  | VObj fields =>
      match unwrap_entries unwrapFunctions fields fields with
      | Ok fields' => Ok (VObj fields')
      | Throw e => Throw e
      end
  | VUndefined | VNull => Throw TypeError
  | _ => Ok object
  end.

(** Calling the closure [(...args) => { window.__ct_dispatch(ordinal, args) }]:
    one message on the dispatch channel, and [undefined] as the result of
    the call; the promise of the binding is not awaited. *)
Definition call_closure (c : closure) (args : list rvalue)
  : rvalue * list (number * list rvalue) :=
  match c with
  | Dispatcher ordinal => (VUndefined, [(ordinal, args)])
  end.

Definition with_document (p : page) (doc : list element) : page :=
  {| playwrightMount := playwrightMount p; document := doc; calls := calls p |}.

Definition with_call (p : page) (c : call) : page :=
  {| playwrightMount := playwrightMount p; document := document p;
     calls := calls p ++ [c] |}.

(** The script evaluated by [innerMount]. *)
Definition mount_script (component hooksConfig : rvalue) (p : page)
  : result string * page :=
  match unwrapFunctions component with
  | Throw e => (Throw e, p)
  | Ok component =>
      let (rootElement, p) :=
        match getElementById "root" (document p) with
        | Some rootElement => (rootElement, p)
        | None =>
            (List.length (document p),
             with_document p (document p ++ [{| tagName := "div"; id := "root" |}]))
        end in
      match resolveImports component with
      | None => (Throw (Rejected "resolveImports"), p)
      | Some component =>
          (Ok "#root >> internal:control=component",
           with_call p (PlaywrightMount component rootElement hooksConfig))
      end
  end.

(** The script evaluated by [innerUpdate]. *)
Definition update_script (component : rvalue) (p : page) : result unit * page :=
  match unwrapFunctions component with
  | Throw e => (Throw e, p)
  | Ok component =>
      match resolveImports component with
      | None => (Throw (Rejected "resolveImports"), p)
      | Some component =>
          let rootElement := getElementById "root" (document p) in
          (Ok tt, with_call p (PlaywrightUpdate rootElement component))
      end
  end.

(** The script evaluated by [unmount]; the locator is taken to resolve. *)
Definition unmount_script (p : page) : result unit * page :=
  let rootElement := getElementById "root" (document p) in
  (Ok tt, with_call p (PlaywrightUnmount rootElement)).

(** ** Controller *)

Record world := {
  boundCallbacksForMount : list fn;
  the_page : page;
  events : list event
}.

Definition with_callbacks (w : world) (callbacks : list fn) : world :=
  {| boundCallbacksForMount := callbacks; the_page := the_page w; events := events w |}.

Definition with_page (w : world) (p : page) : world :=
  {| boundCallbacksForMount := boundCallbacksForMount w; the_page := p;
     events := events w |}.

(** What the caller's [componentRef] holds once [wrapFunctions] has run
    over the component built from it.  A declarative component is the
    component itself; any other object sits under the [type] key of the
    component unless [options] supplied that key; a primitive or a function
    is not an object that could be mutated. *)
Definition componentRef_after (componentRef options component : cvalue) : cvalue :=
  match componentRef with
  | VObj _ =>
      if isJsxComponent componentRef then component
      else if has_prop "type" (spread_entries options) then componentRef
      else match member "type" component with
           | Ok v => v
           | Throw _ => componentRef
           end
  | _ => componentRef
  end.

(** [options.hooksConfig] as read after [wrapFunctions]: when it is an
    object and [options] was spread into the component, it is the object
    under the [hooksConfig] key of the component. *)
Definition hooksConfig_after (componentRef options component : cvalue)
  : result cvalue :=
  match member "hooksConfig" options with
  | Ok (VObj h) =>
      if isJsxComponent componentRef then Ok (VObj h)
      else member "hooksConfig" component
  | r => r
  end.

(** [innerMount(page, componentRef, options = {})].  Returns the outcome,
    the caller's [componentRef] as mutated, and the new state.  Waiting for
    [window.playwrightMount] on a page that never defines it ends in a
    timeout.  The component and the hooks configuration are carried to the
    page as two values: whether the page sees them linked, as one payload
    with a shared object, is up to the channel and is not represented, and
    no theorem below states what a hooks configuration that holds callbacks
    looks like in the page. *)
Definition innerMount (componentRef options : cvalue) (w : world)
  : result string * cvalue * world :=
  let options := default_empty options in
  match createComponent componentRef options with
  | Throw e => (Throw e, componentRef, w)
  | Ok component =>
      match wrapFunctions component (boundCallbacksForMount w) with
      | Throw e => (Throw e, componentRef, w)
      | Ok (component, callbacks) =>
          let componentRef' := componentRef_after componentRef options component in
          let w := with_callbacks w callbacks in
          if negb (playwrightMount (the_page w)) then
            (Throw TimeoutError, componentRef', w)
          else
            match hooksConfig_after componentRef options component with
            | Throw e => (Throw e, componentRef', w)
            | Ok hooksConfig =>
                match transfer component, transfer hooksConfig with
                | Some component, Some hooksConfig =>
                    let (selector, p) := mount_script component hooksConfig (the_page w) in
                    (selector, componentRef', with_page w p)
                | _, _ => (Throw (Rejected "Unexpected value"), componentRef', w)
                end
            end
      end
  end.

(** [innerUpdate(page, componentRef, options = {})] *)
Definition innerUpdate (componentRef options : cvalue) (w : world)
  : result unit * cvalue * world :=
  let options := default_empty options in
  match createComponent componentRef options with
  | Throw e => (Throw e, componentRef, w)
  | Ok component =>
      match wrapFunctions component (boundCallbacksForMount w) with
      | Throw e => (Throw e, componentRef, w)
      | Ok (component, callbacks) =>
          let componentRef' := componentRef_after componentRef options component in
          let w := with_callbacks w callbacks in
          match transfer component with
          | Some component =>
              let (r, p) := update_script component (the_page w) in
              (r, componentRef', with_page w p)
          | None => (Throw (Rejected "Unexpected value"), componentRef', w)
          end
      end
  end.

(** The value returned by the function that the [mount] fixture hands to
    the test: a locator for [selector], with [update] and [unmount] closing
    over [componentRef]. *)
Record handle := {
  selector : string;
  componentRef : cvalue
}.

(** The function that the [mount] fixture hands to the test. *)
Definition mount (componentRef options : cvalue) (w : world)
  : result handle * world :=
  match innerMount componentRef options w with
  | (Ok selector, componentRef', w') =>
      (Ok {| selector := selector; componentRef := componentRef' |}, w')
  | (Throw e, _, w') => (Throw e, w')
  end.

(** [handle.update(options)] *)
Definition update (h : handle) (options : cvalue) (w : world)
  : result unit * handle * world :=
  if isJsxComponent options then
    let '(r, _, w') := innerUpdate options VUndefined w in (r, h, w')
  else
    let '(r, componentRef', w') := innerUpdate (componentRef h) options w in
    (r, {| selector := selector h; componentRef := componentRef' |}, w').

(** [handle.unmount()] *)
Definition unmount (h : handle) (w : world) : result unit * world :=
  let (r, p) := unmount_script (the_page w) in (r, with_page w p).

(** The page calls the exposed binding. *)
Definition dispatch (ordinal : number) (args : list cvalue) (w : world)
  : result unit * world :=
  match __ct_dispatch (boundCallbacksForMount w) ordinal args with
  | Ok evs =>
      (Ok tt, {| boundCallbacksForMount := boundCallbacksForMount w;
                 the_page := the_page w; events := events w ++ evs |})
  | Throw e => (Throw e, w)
  end.

(** ** Sessions *)

(** What a test does with the fixture.  [Update] and [Unmount] name the
    handle returned by the [i]-th successful [Mount] of the test. *)
Inductive action :=
| Mount (componentRef options : cvalue)
| Update (i : nat) (options : cvalue)
| Unmount (i : nat)
| Dispatch (ordinal : number) (args : list cvalue).

Record session_state := {
  the_world : world;
  handles : list handle
}.

Fixpoint set_nth {A} (i : nat) (x : A) (l : list A) : list A :=
  match i, l with
  | _, [] => []
  | O, _ :: l' => x :: l'
  | S i', y :: l' => y :: set_nth i' x l'
  end.

(** One step of a test.  A failing [mount], [update] or [unmount] is an
    exception in the test; a failing dispatch rejects in the page only. *)
Definition step (a : action) (s : session_state) : result unit * session_state :=
  match a with
  | Mount componentRef options =>
      match mount componentRef options (the_world s) with
      | (Ok h, w) => (Ok tt, {| the_world := w; handles := handles s ++ [h] |})
      | (Throw e, w) => (Throw e, {| the_world := w; handles := handles s |})
      end
  | Update i options =>
      match nth_error (handles s) i with
      | None => (Throw TypeError, s)
      | Some h =>
          let '(r, h', w) := update h options (the_world s) in
          (r, {| the_world := w; handles := set_nth i h' (handles s) |})
      end
  | Unmount i =>
      match nth_error (handles s) i with
      | None => (Throw TypeError, s)
      | Some h =>
          let (r, w) := unmount h (the_world s) in
          (r, {| the_world := w; handles := handles s |})
      end
  | Dispatch ordinal args =>
      let (_, w) := dispatch ordinal args (the_world s) in
      (Ok tt, {| the_world := w; handles := handles s |})
  end.

(** A test runs its actions until one throws. *)
Fixpoint run_test (test : list action) (s : session_state) : session_state :=
  match test with
  | [] => s
  | a :: rest =>
      match step a s with
      | (Ok _, s') => run_test rest s'
      | (Throw _, s') => s'
      end
  end.

(** The [mount] fixture: the test runs inside [use]; afterwards
    [boundCallbacksForMount = []]. *)
Definition mount_fixture (test : list action) (w : world) : world :=
  let s := run_test test {| the_world := w; handles := [] |} in
  with_callbacks (the_world s) [].

(** One test of a worker: the [page] fixture throws before anything else
    when [defineConfig] was not used; otherwise the test runs over a page of
    its own. *)
Record session := {
  defineConfigWasUsed : bool;
  initial_page : page;
  test_body : list action
}.

(** The registry is a module-level variable: it survives from one test of
    the worker to the next. *)
Definition run_session (s : session) (callbacks : list fn) : list fn :=
  if defineConfigWasUsed s then
    boundCallbacksForMount
      (mount_fixture (test_body s)
         {| boundCallbacksForMount := callbacks; the_page := initial_page s;
            events := [] |})
  else callbacks.

(** The registry at the start of each session of a worker, then at the
    end. *)
Fixpoint registry_trace (sessions : list session) (callbacks : list fn)
  : list (list fn) :=
  match sessions with
  | [] => [callbacks]
  | s :: rest => callbacks :: registry_trace rest (run_session s callbacks)
  end.

(** [let boundCallbacksForMount: Function[] = []] *)
Definition initial_callbacks : list fn := [].

End Remote.

(** * Vocabulary of the statements *)

(** An object has one property per key. *)
Fixpoint distinct_keys (keys : list string) : bool :=
  match keys with
  | [] => true
  | k :: rest => negb (existsb (String.eqb k) rest) && distinct_keys rest
  end.

(** Every object inside [v] has one property per key.  Every JavaScript
    object has; the condition sets aside the lists that stand for no
    object. *)
Fixpoint well_formed {F} (v : value F) : bool :=
  match v with
  | VObj fields =>
      distinct_keys (map fst fields)
      && forallb (fun kv => well_formed (snd kv)) fields
  | _ => true
  end.

(** The value reached from [v] along the keys of [path]. *)
Fixpoint at_path {F} (path : list string) (v : value F) : option (value F) :=
  match path with
  | [] => Some v
  | key :: path' =>
      match v with
      | VObj fields =>
          match get_prop key fields with
          | Some x => at_path path' x
          | None => None
          end
      | _ => None
      end
  end.

(** The keys of an object, in order; [None] for any other value. *)
Definition keys_of {F} (v : value F) : option (list string) :=
  match v with
  | VObj fields => Some (map fst fields)
  | _ => None
  end.

(** A value that is neither an object nor a function. *)
Definition is_plain {F} (v : value F) : bool :=
  match v with
  | VObj _ | VFunc _ => false
  | _ => true
  end.

(** The callable values inside [v], in the order of a depth-first walk over
    the entries. *)
Fixpoint callables (v : cvalue) : list fn :=
  match v with
  | VFunc f => [f]
  | VObj fields => flat_map (fun kv => callables (snd kv)) fields
  | _ => []
  end.

(** The specification of marshalling: every callable value is replaced by
    the token of its ordinal, counting from [next] in the order of
    [callables]; everything else is kept. *)
Fixpoint tokenize (next : nat) (v : cvalue) : cvalue :=
  match v with
  | VFunc _ => VStr (functionName next)
  | VObj fields =>
      VObj ((fix each (next : nat) (l : props fn) : props fn :=
               match l with
               | [] => []
               | (k, x) :: l' =>
                   (k, tokenize next x) :: each (next + List.length (callables x)) l'
               end) next fields)
  | _ => v
  end.

Definition tokenize_entries (next : nat) (l : props fn) : props fn :=
  match tokenize next (VObj l) with
  | VObj l' => l'
  | _ => []
  end.

(** The number of callable values inside the properties that precede
    [key]. *)
Fixpoint offset (key : string) (fields : props fn) : nat :=
  match fields with
  | [] => 0
  | (k, x) :: rest =>
      if String.eqb k key then 0
      else List.length (callables x) + offset key rest
  end.

(** The number of callable values that the walk meets before it reaches
    [path]. *)
Fixpoint rank (path : list string) (v : cvalue) : nat :=
  match path with
  | [] => 0
  | key :: path' =>
      match v with
      | VObj fields =>
          match get_prop key fields with
          | Some x => offset key fields + rank path' x
          | None => 0
          end
      | _ => 0
      end
  end.

(** The token format of the specification: the prefix followed by a
    non-negative decimal ordinal. *)
Definition is_token (s : string) : bool :=
  startsWith s "__pw_func_"
  && let digits := substring_from (String.length "__pw_func_") s in
     negb (String.eqb digits "") && all_digits digits.

Section Revive.
Variable ToNumber : string -> number.

(** The specification of un-marshalling, as the code has it: every string
    that starts with the prefix becomes a dispatching closure. *)
Fixpoint revive (v : rvalue) : rvalue :=
  match v with
  | VStr s =>
      if startsWith s "__pw_func_"
      then VFunc (Dispatcher (ToNumber (substring_from (String.length "__pw_func_") s)))
      else v
  | VObj fields => VObj (map (fun kv => (fst kv, revive (snd kv))) fields)
  | _ => v
  end.
End Revive.

(** A conversion that agrees with [+s] where [s] is a sequence of decimal
    digits and where [s] is no numeric literal at all; it is used at such
    strings only. *)
Definition digits_to_number (s : string) : number :=
  if all_digits s then Int (Z.of_N (value_of_digits 0 s)) else NonInt "NaN".

(** The elements of a document that carry the identifier of the root. *)
Definition roots (doc : list element) : list element :=
  filter (fun e => String.eqb (id e) "root") doc.

Definition root_div : element := {| tagName := "div"; id := "root" |}.

(** The ordinal names an element of the registry. *)
Definition registered (callbacks : list fn) (ordinal : number) : Prop :=
  exists n, ordinal = Int (Z.of_nat n) /\ n < List.length callbacks.

(** [wrapFunctions] agrees with [tokenize] on [x]. *)
Definition wrap_meets_spec (x : cvalue) : Prop :=
  forall callbacks,
    well_formed x = true -> is_object x = true ->
    wrapFunctions x callbacks =
    Ok (tokenize (List.length callbacks) x, callbacks ++ callables x).


(** * Sample inputs *)

(** A type reference: [{ __pw_type: 'importRef', id: 'Counter' }]. *)
Definition counterRef : cvalue :=
  VObj [("__pw_type", VStr "importRef"); ("id", VStr "Counter")].

(** [{ props: { count: 0, onClick: f7 }, on: { close: f8 } }] *)
Definition counterOptions : cvalue :=
  VObj [("props", VObj [("count", VNum (Int 0)); ("onClick", VFunc 7)]);
        ("on", VObj [("close", VFunc 8)])].

(** The component built from [counterRef] and [counterOptions]. *)
Definition counterComponent : props fn :=
  [("__pw_type", VStr "object-component");
   ("type", counterRef);
   ("props", VObj [("count", VNum (Int 0)); ("onClick", VFunc 7)]);
   ("on", VObj [("close", VFunc 8)])].

(** [unwrapFunctions] agrees with [revive] on [x]. *)
Definition unwrap_meets_spec (ToNumber : string -> number) (x : rvalue) : Prop :=
  well_formed x = true -> is_object x = true ->
  unwrapFunctions ToNumber x = Ok (revive ToNumber x).

(** [{ title: '__pw_func_x' }]: a string property that starts like a token
    and is none. *)
Definition titled : rvalue := VObj [("title", VStr "__pw_func_x")].

(** [{ label: 'ok', onClick: '__pw_func_3' }] *)
Definition clickable : props closure :=
  [("label", VStr "ok"); ("onClick", VStr "__pw_func_3")].

(** A page that has loaded the framework stub and holds no root element. *)
Definition blankPage : page :=
  {| playwrightMount := true; document := []; calls := [] |}.

(** A registry of three functions over [blankPage]. *)
Definition sampleWorld : world :=
  {| boundCallbacksForMount := [5; 7; 8]; the_page := blankPage; events := [] |}.

Section StatementsOverThePage.
Variable ToNumber : string -> number.
Variable resolveImports : rvalue -> option rvalue.

(** The component that [handle.update(x)] builds: [x] itself when it is a
    declarative component, else the component built from the reference of
    the handle and the options [x]. *)
Definition update_component (h : handle) (x : cvalue) : result cvalue :=
  if isJsxComponent x then createComponent x VUndefined
  else createComponent (componentRef h) x.

(** [handle.update(x)] marshals [component] against the registry and hands
    it to the update entry point of the page, with the root element that the
    page holds; the document is not touched. *)
Definition update_sends (h : handle) (x : cvalue) (w : world) (component : cvalue)
  : Prop :=
  exists component' callbacks',
    wrapFunctions component (boundCallbacksForMount w) = Ok (component', callbacks')
    /\ boundCallbacksForMount (snd (update ToNumber resolveImports h x w)) = callbacks'
    /\ document (the_page (snd (update ToNumber resolveImports h x w)))
       = document (the_page w)
    /\ match fst (fst (update ToNumber resolveImports h x w)) with
       | Ok _ =>
           exists transferred unwrapped resolved,
             transfer component' = Some transferred
             /\ unwrapFunctions ToNumber transferred = Ok unwrapped
             /\ resolveImports unwrapped = Some resolved
             /\ calls (the_page (snd (update ToNumber resolveImports h x w)))
                = calls (the_page w)
                  ++ [PlaywrightUpdate
                        (getElementById "root" (document (the_page w))) resolved]
       | Throw _ =>
           calls (the_page (snd (update ToNumber resolveImports h x w)))
           = calls (the_page w)
       end.
End StatementsOverThePage.

(** Marshalling [x] only appends to the registry. *)
Definition wrap_extends (x : cvalue) : Prop :=
  forall callbacks x' callbacks',
    wrapFunctions x callbacks = Ok (x', callbacks') ->
    exists new, callbacks' = callbacks ++ new.

(** Marshalling [x], an object, returns an object. *)
Definition wrap_returns (x : cvalue) : Prop :=
  forall callbacks,
    is_object x = true ->
    exists fields' callbacks', wrapFunctions x callbacks = Ok (VObj fields', callbacks').

(** What one operation of a test may do to the state of the test process
    and of the page: append to the registry, and add the root element to a
    document that has none. *)
Definition evolves (w w' : world) : Prop :=
  (exists new, boundCallbacksForMount w' = boundCallbacksForMount w ++ new)
  /\ (document (the_page w') = document (the_page w)
      \/ (getElementById "root" (document (the_page w)) = None
          /\ document (the_page w') = document (the_page w) ++ [root_div])).

(** The handle of a mount of [counterRef]. *)
Definition counterHandle : handle :=
  {| selector := "#root >> internal:control=component"; componentRef := counterRef |}.

(** [{ props: { count: 1 } }] *)
Definition countPatch : cvalue :=
  VObj [("props", VObj [("count", VNum (Int 1))])].

(** A registry in the page that resolves every component to itself. *)
Definition resolve_all (component : rvalue) : option rvalue := Some component.

(** No function is left inside [v]. *)
Fixpoint function_free {F} (v : value F) : bool :=
  match v with
  | VFunc _ => false
  | VObj fields => forallb (fun kv => function_free (snd kv)) fields
  | _ => true
  end.

(** The image of a function-free value on the other side of the transfer
    channel. *)
Fixpoint image {F G} (v : value F) : value G :=
  match v with
  | VUndefined => VUndefined
  | VNull => VNull
  | VBool b => VBool b
  | VNum n => VNum n
  | VStr s => VStr s
  | VFunc _ => VUndefined
  | VObj fields => VObj (map (fun kv => (fst kv, image (snd kv))) fields)
  end.

(** [{ props: { count: 0, onClick: f7 } }] *)
Definition clickOptions : cvalue :=
  VObj [("props", VObj [("count", VNum (Int 0)); ("onClick", VFunc 7)])].

(** A declarative component: [{ __pw_type: 'jsx', type: 'button',
    props: { onClick: f3 } }]. *)
Definition buttonJsx : cvalue :=
  VObj [("__pw_type", VStr "jsx"); ("type", VStr "button");
        ("props", VObj [("onClick", VFunc 3)])].

(** The handle of a mount of [buttonJsx] over an empty registry: the
    callback of the component has become its token. *)
Definition buttonHandle : handle :=
  {| selector := "#root >> internal:control=component";
     componentRef :=
       VObj [("__pw_type", VStr "jsx"); ("type", VStr "button");
             ("props", VObj [("onClick", VStr "__pw_func_0")])] |}.

(** A fresh test process over [blankPage]. *)
Definition freshWorld : world :=
  {| boundCallbacksForMount := []; the_page := blankPage; events := [] |}.

(** * Further vocabulary *)

(** The call names the element at position [r] as its root element. *)
Definition targets (r : nat) (c : call) : Prop :=
  match c with
  | PlaywrightMount _ rootElement _ => rootElement = r
  | PlaywrightUpdate rootElement _ => rootElement = Some r
  | PlaywrightUnmount rootElement => rootElement = Some r
  end.

(** The position of the root element of a document: where it is, or where
    the mount script will append it. *)
Definition root_position (doc : list element) : nat :=
  match getElementById "root" doc with
  | Some r => r
  | None => List.length doc
  end.

(** A registry in the page that knows no component. *)
Definition resolve_none (component : rvalue) : option rvalue := None.

(** [{ props: { label: '__pw_func_0', size: 3 } }]: a label that looks like
    a token. *)
Definition labelled : props fn :=
  [("props", VObj [("label", VStr "__pw_func_0"); ("size", VNum (Int 3))])].

(** A page that a script never installed the framework stub in. *)
Definition bootingPage : page :=
  {| playwrightMount := false; document := []; calls := [] |}.

(** All calls that a session has added to [base] name the element at [r],
    which is the root element of the document, or the place where the first
    mount of the session will append it. *)
Definition session_targets (r : nat) (base : list call) (s : session_state) : Prop :=
  (getElementById "root" (document (the_page (the_world s))) = Some r
   \/ (getElementById "root" (document (the_page (the_world s))) = None
       /\ r = List.length (document (the_page (the_world s)))
       /\ handles s = []))
  /\ exists new,
       calls (the_page (the_world s)) = base ++ new /\ Forall (targets r) new.

Section UpdateOutcome.
Variable ToNumber : string -> number.
Variable resolveImports : rvalue -> option rvalue.

(** The whole outcome of [handle.update(x)] when [component] is what it
    builds and the document holds the root element at [rootElement]: the
    component is marshalled against the registry, which grows by its
    callable values, crosses the channel and is un-marshalled; if the
    registry of the page resolves it, the update succeeds and the one change
    to the page is one call of the update entry point with the root element
    and the component as resolved; if the registry rejects it, the update is
    rejected and the page is as it was. *)
Definition update_delivers (h : handle) (x : cvalue) (w : world)
  (component : cvalue) (rootElement : nat) : Prop :=
  exists marshalled sent unwrapped,
    wrapFunctions component (boundCallbacksForMount w)
    = Ok (marshalled, boundCallbacksForMount w ++ callables component)
    /\ transfer marshalled = Some sent
    /\ unwrapFunctions ToNumber sent = Ok unwrapped
    /\ match resolveImports unwrapped with
       | Some resolved =>
           fst (fst (update ToNumber resolveImports h x w)) = Ok tt
           /\ snd (update ToNumber resolveImports h x w)
              = with_page
                  (with_callbacks w (boundCallbacksForMount w ++ callables component))
                  (with_call (the_page w)
                     (PlaywrightUpdate (Some rootElement) resolved))
       | None =>
           fst (fst (update ToNumber resolveImports h x w))
           = Throw (Rejected "resolveImports")
           /\ snd (update ToNumber resolveImports h x w)
              = with_callbacks w (boundCallbacksForMount w ++ callables component)
       end.
End UpdateOutcome.

(** A page in which a mount has run: the stub is installed and the root
    element is the first element of the document. *)
Definition mountedPage : page :=
  {| playwrightMount := true; document := [root_div]; calls := [] |}.

(** The test process after a mount of [buttonJsx] over an empty registry. *)
Definition buttonWorld : world :=
  {| boundCallbacksForMount := [3]; the_page := mountedPage; events := [] |}.

(** The test process after a mount of [counterRef] with [clickOptions] over
    an empty registry. *)
Definition counterWorld : world :=
  {| boundCallbacksForMount := [7]; the_page := mountedPage; events := [] |}.
(** * Properties *)

(** ** Decimal text and tokens *)

Lemma decimal_inj n m : decimal n = decimal m -> n = m.
Proof.
  unfold decimal. intros H.
  apply DecimalNat.Unsigned.to_uint_inj.
  assert (E : Some (Nat.to_uint n) = Some (Nat.to_uint m))
    by (rewrite <- !NilEmpty.usu, H; reflexivity).
  now inversion E.
Qed.

Lemma functionName_inj n m : functionName n = functionName m -> n = m.
Proof.
  unfold functionName. cbn [append]. intros H.
  apply decimal_inj. now inversion H.
Qed.

(** ** Own properties *)

Lemma distinct_keys_cons k rest :
  distinct_keys (k :: rest) = true <-> ~ In k rest /\ distinct_keys rest = true.
Proof.
  cbn. rewrite andb_true_iff, negb_true_iff. split.
  - intros [Hk Hr]. split; auto. intros Hin.
    assert (existsb (String.eqb k) rest = true).
    { apply existsb_exists. exists k. split; auto. apply String.eqb_refl. }
    congruence.
  - intros [Hk Hr]. split; auto.
    destruct (existsb (String.eqb k) rest) eqn:E; auto.
    apply existsb_exists in E. destruct E as [x [Hx Heq]].
    apply String.eqb_eq in Heq. subst. contradiction.
Qed.

Section PropsFacts.
Context {F : Type}.
Implicit Types (o done rest : props F) (v x : value F).

Lemma get_prop_none key o : ~ In key (map fst o) -> get_prop key o = None.
Proof.
  induction o as [|[k x] o IH]; cbn; auto.
  intros H. destruct (String.eqb k key) eqn:E.
  - apply String.eqb_eq in E. subst. tauto.
  - apply IH. tauto.
Qed.

Lemma get_prop_in key o v : get_prop key o = Some v -> In key (map fst o).
Proof.
  induction o as [|[k x] o IH]; cbn; [discriminate|].
  destruct (String.eqb k key) eqn:E.
  - apply String.eqb_eq in E. auto.
  - auto.
Qed.

Lemma get_prop_app key done rest :
  get_prop key (done ++ rest) =
  match get_prop key done with
  | Some v => Some v
  | None => get_prop key rest
  end.
Proof.
  induction done as [|[k x] done IH]; cbn; auto.
  destruct (String.eqb k key); auto.
Qed.

Lemma set_prop_here key v x done rest :
  ~ In key (map fst done) ->
  set_prop key v (done ++ (key, x) :: rest) = done ++ (key, v) :: rest.
Proof.
  intros Hk. unfold set_prop, has_prop.
  rewrite get_prop_app, (get_prop_none _ _ Hk). cbn. rewrite String.eqb_refl.
  induction done as [|[k y] done IH]; cbn.
  - now rewrite String.eqb_refl.
  - cbn in Hk. destruct (String.eqb k key) eqn:E.
    + apply String.eqb_eq in E. tauto.
    + f_equal. apply IH. tauto.
Qed.
End PropsFacts.

Lemma distinct_keys_NoDup keys : distinct_keys keys = true <-> NoDup keys.
Proof.
  induction keys as [|k rest IH].
  - split; [constructor | reflexivity].
  - rewrite distinct_keys_cons, IH. split.
    + intros [H1 H2]. now constructor.
    + intros H. inversion H; subst. tauto.
Qed.

Lemma distinct_keys_middle (a b : list string) k :
  distinct_keys (a ++ k :: b) = true -> ~ In k a.
Proof.
  rewrite distinct_keys_NoDup. intros H Hin.
  apply NoDup_remove_2 in H. apply H, in_or_app. now left.
Qed.

Lemma well_formed_obj {F} (fields : props F) :
  well_formed (VObj fields) = true <->
  distinct_keys (map fst fields) = true
  /\ forallb (fun kv => well_formed (snd kv)) fields = true.
Proof. cbn [well_formed]. apply andb_true_iff. Qed.

(** ** Marshalling meets its specification *)

Lemma tokenize_obj next fields :
  tokenize next (VObj fields) = VObj (tokenize_entries next fields).
Proof. reflexivity. Qed.

Lemma tokenize_entries_cons next k x l :
  tokenize_entries next ((k, x) :: l) =
  (k, tokenize next x) :: tokenize_entries (next + List.length (callables x)) l.
Proof. reflexivity. Qed.

Lemma tokenize_entries_keys next l :
  map fst (tokenize_entries next l) = map fst l.
Proof.
  revert next. induction l as [|[k x] l IH]; intros next; [reflexivity|].
  rewrite tokenize_entries_cons. cbn. now rewrite IH.
Qed.

Lemma wrap_entries_spec (entries : props fn) :
  Forall (fun kv => wrap_meets_spec (snd kv)) entries ->
  forall (done : props fn) (callbacks : list fn),
    distinct_keys (map fst (done ++ entries)) = true ->
    forallb (fun kv => well_formed (snd kv)) entries = true ->
    wrap_entries wrapFunctions entries (done ++ entries) callbacks =
    Ok (done ++ tokenize_entries (List.length callbacks) entries,
        callbacks ++ flat_map (fun kv => callables (snd kv)) entries).
Proof.
  induction 1 as [|[key x] rest Hx _ IH]; intros done callbacks Hkeys Hwf.
  - cbn. now rewrite !app_nil_r.
  - assert (Hfresh : ~ In key (map fst done)).
    { rewrite map_app in Hkeys. cbn in Hkeys. now apply distinct_keys_middle in Hkeys. }
    cbn [forallb snd] in Hwf. apply andb_true_iff in Hwf. destruct Hwf as [Hwx Hwrest].
    assert (Hnext : forall y,
               distinct_keys (map fst ((done ++ [(key, y)]) ++ rest)) = true).
    { intros y. rewrite <- app_assoc. cbn.
      rewrite map_app in *. cbn in *. exact Hkeys. }
    rewrite tokenize_entries_cons. cbn [flat_map snd].
    cbn [wrap_entries].
    destruct x as [| | b | n | s | f | sub]; cbn [typeof String.eqb Ascii.eqb Bool.eqb is_object andb].
    all: try (match goal with
              | |- wrap_entries _ _ (_ ++ (_, ?v) :: _) _ = _ =>
                  specialize (IH (done ++ [(key, v)]) callbacks (Hnext v) Hwrest)
              end;
              rewrite <- !app_assoc in IH; cbn [app] in IH; rewrite IH;
              cbn [callables tokenize List.length app]; rewrite Nat.add_0_r;
              reflexivity).
    + (* a function *)
      rewrite set_prop_here by assumption.
      specialize (IH (done ++ [(key, VStr (functionName (List.length callbacks)))])
                     (callbacks ++ [f]) (Hnext _) Hwrest).
      rewrite <- !app_assoc in IH. cbn [app] in IH. rewrite IH.
      rewrite length_app. reflexivity.
    + (* an object *)
      cbn in Hx. rewrite (Hx callbacks Hwx eq_refl).
      rewrite set_prop_here by assumption.
      specialize (IH (done ++ [(key, tokenize (List.length callbacks) (VObj sub))])
                     (callbacks ++ callables (VObj sub)) (Hnext _) Hwrest).
      rewrite <- !app_assoc in IH. cbn [app] in IH. rewrite IH.
      rewrite length_app. reflexivity.
Qed.

Lemma wrapFunctions_spec (x : cvalue) : wrap_meets_spec x.
Proof.
  induction x as [| | b | n | s | f | fields IH] using value_ind;
    intros callbacks Hwf Hobj; try discriminate.
  apply well_formed_obj in Hwf. destruct Hwf as [Hkeys Hwf].
  pose proof (wrap_entries_spec fields IH [] callbacks Hkeys Hwf) as E.
  cbn [app] in E. cbn [wrapFunctions]. now rewrite E.
Qed.

(** ** Marshalling, path by path *)

Lemma get_prop_tokenize key next fields :
  get_prop key (tokenize_entries next fields) =
  option_map (tokenize (next + offset key fields)) (get_prop key fields).
Proof.
  revert next. induction fields as [|[k x] l IH]; intros next; [reflexivity|].
  rewrite tokenize_entries_cons. cbn [get_prop offset].
  destruct (String.eqb k key).
  - cbn. now rewrite Nat.add_0_r.
  - rewrite IH. now rewrite Nat.add_assoc.
Qed.

Lemma at_path_tokenize_cons key path next fields :
  at_path (key :: path) (tokenize next (VObj fields)) =
  match get_prop key fields with
  | Some x => at_path path (tokenize (next + offset key fields) x)
  | None => None
  end.
Proof.
  rewrite tokenize_obj. cbn [at_path]. rewrite get_prop_tokenize.
  now destruct (get_prop key fields).
Qed.

Lemma callables_at_offset key fields x i :
  get_prop key fields = Some x ->
  i < List.length (callables x) ->
  nth_error (callables (VObj fields)) (offset key fields + i) = nth_error (callables x) i.
Proof.
  cbn [callables].
  induction fields as [|[k y] l IH]; cbn [get_prop offset flat_map snd]; [discriminate|].
  destruct (String.eqb k key).
  - intros E Hi. inversion E; subst. cbn. now apply nth_error_app1.
  - intros E Hi. rewrite nth_error_app2 by lia.
    replace (List.length (callables y) + offset key l + i - List.length (callables y))
      with (offset key l + i) by lia.
    now apply IH.
Qed.

Lemma offset_disjoint k k' fields x x' :
  k <> k' ->
  get_prop k fields = Some x ->
  get_prop k' fields = Some x' ->
  offset k fields + List.length (callables x) <= offset k' fields
  \/ offset k' fields + List.length (callables x') <= offset k fields.
Proof.
  intros Hne.
  induction fields as [|[k0 y] l IH]; cbn [get_prop offset]; [discriminate|].
  destruct (String.eqb k0 k) eqn:E, (String.eqb k0 k') eqn:E'.
  - apply String.eqb_eq in E, E'. congruence.
  - intros H _. inversion H; subst. left. lia.
  - intros _ H. inversion H; subst. right. lia.
  - intros H H'. destruct (IH H H'); [left | right]; lia.
Qed.

(** A callable value at [path] becomes the token of ordinal
    [next + rank path v], and [rank path v] is its place among the callable
    values. *)
Lemma tokenize_callable path :
  forall (v : cvalue) next f,
    at_path path v = Some (VFunc f) ->
    at_path path (tokenize next v) = Some (VStr (functionName (next + rank path v)))
    /\ nth_error (callables v) (rank path v) = Some f.
Proof.
  induction path as [|key path IH]; intros v next f H.
  - cbn in H. inversion H; subst. cbn. now rewrite Nat.add_0_r.
  - destruct v as [| | | | | |fields]; try discriminate.
    rewrite at_path_tokenize_cons. cbn [at_path rank] in *.
    destruct (get_prop key fields) as [x|] eqn:E; [|discriminate].
    destruct (IH x (next + offset key fields) f H) as [H1 H2].
    split.
    + now rewrite H1, Nat.add_assoc.
    + rewrite (callables_at_offset _ _ _ _ E); auto.
      apply nth_error_Some. congruence.
Qed.

Lemma rank_bound path (v : cvalue) f :
  at_path path v = Some (VFunc f) -> rank path v < List.length (callables v).
Proof.
  intros H. destruct (tokenize_callable path v 0 f H) as [_ H2].
  apply nth_error_Some. congruence.
Qed.

(** Two callable values at two paths have two ranks. *)
Lemma rank_inj path :
  forall path' (v : cvalue) f g,
    path <> path' ->
    at_path path v = Some (VFunc f) ->
    at_path path' v = Some (VFunc g) ->
    rank path v <> rank path' v.
Proof.
  induction path as [|key path IH]; intros path' v f g Hne H H'.
  - cbn in H. inversion H; subst. destruct path'; [congruence | discriminate].
  - destruct v as [| | | | | |fields]; try discriminate.
    destruct path' as [|key' path']; [discriminate|].
    cbn [at_path rank] in *.
    destruct (get_prop key fields) as [x|] eqn:E; [|discriminate].
    destruct (get_prop key' fields) as [x'|] eqn:E'; [|discriminate].
    destruct (String.eqb key key') eqn:K.
    + apply String.eqb_eq in K. subst key'.
      assert (x' = x) by congruence. subst x'.
      assert (Hp : path <> path') by congruence.
      specialize (IH path' x f g Hp H H'). lia.
    + apply String.eqb_neq in K.
      pose proof (rank_bound _ _ _ H) as B.
      pose proof (rank_bound _ _ _ H') as B'.
      destruct (offset_disjoint _ _ _ _ _ K E E'); lia.
Qed.

(** A value that is neither an object nor a function stays as it is. *)
Lemma tokenize_plain path :
  forall (v u : cvalue) next,
    at_path path v = Some u -> is_plain u = true ->
    at_path path (tokenize next v) = Some u.
Proof.
  induction path as [|key path IH]; intros v u next H Hu.
  - cbn in H. inversion H; subst. now destruct u.
  - destruct v as [| | | | | |fields]; try discriminate.
    rewrite at_path_tokenize_cons. cbn [at_path] in H.
    destruct (get_prop key fields) as [x|]; [|discriminate].
    now apply IH.
Qed.

(** Objects stay objects with the same keys in the same order, and no path
    appears or disappears. *)
Lemma tokenize_keys path :
  forall (v : cvalue) next,
    option_map keys_of (at_path path (tokenize next v)) =
    option_map keys_of (at_path path v).
Proof.
  induction path as [|key path IH]; intros v next.
  - cbn [at_path option_map]. f_equal.
    destruct v; try reflexivity.
    rewrite tokenize_obj. cbn [keys_of]. now rewrite tokenize_entries_keys.
  - destruct v as [| | | | | |fields]; try reflexivity.
    rewrite at_path_tokenize_cons. cbn [at_path].
    destruct (get_prop key fields) as [x|]; [apply IH | reflexivity].
Qed.

(** ** The marshaller *)

(** C1.  Marshalling an object that holds N callable values, however deep:
    the registry grows by exactly those N values, in the order of the walk;
    the callable at a path is replaced by the token ['__pw_func_' + ordinal]
    where [ordinal] is the length the registry had when the walk reached it,
    and the registry holds the callable at that index; two callables get two
    tokens; every value that is neither a function nor an object is the
    same as before; every object keeps its keys, in order, and no path
    appears or disappears. *)
Theorem wrapFunctions_marshals (fields : props fn) (callbacks : list fn) :
  well_formed (VObj fields) = true ->
  exists fields' callbacks',
    wrapFunctions (VObj fields) callbacks = Ok (VObj fields', callbacks')
    /\ callbacks' = callbacks ++ callables (VObj fields)
    /\ (forall path f,
          at_path path (VObj fields) = Some (VFunc f) ->
          let ordinal := List.length callbacks + rank path (VObj fields) in
          at_path path (VObj fields') = Some (VStr (functionName ordinal))
          /\ nth_error callbacks' ordinal = Some f
          /\ firstn ordinal callbacks' =
             callbacks ++ firstn (rank path (VObj fields)) (callables (VObj fields)))
    /\ (forall path path' f g,
          path <> path' ->
          at_path path (VObj fields) = Some (VFunc f) ->
          at_path path' (VObj fields) = Some (VFunc g) ->
          at_path path (VObj fields') <> at_path path' (VObj fields'))
    /\ (forall path u,
          at_path path (VObj fields) = Some u -> is_plain u = true ->
          at_path path (VObj fields') = Some u)
    /\ (forall path,
          option_map keys_of (at_path path (VObj fields')) =
          option_map keys_of (at_path path (VObj fields))).
Proof.
  intros Hwf.
  exists (tokenize_entries (List.length callbacks) fields),
         (callbacks ++ callables (VObj fields)).
  rewrite <- tokenize_obj.
  split; [now apply wrapFunctions_spec|].
  split; [reflexivity|].
  split; [|split; [|split]].
  - intros path f H ordinal.
    destruct (tokenize_callable path (VObj fields) (List.length callbacks) f H) as [H1 H2].
    split; [exact H1|]. split.
    + unfold ordinal. rewrite nth_error_app2 by lia.
      now replace (List.length callbacks + rank path (VObj fields) - List.length callbacks)
        with (rank path (VObj fields)) by lia.
    + unfold ordinal. rewrite firstn_app.
      rewrite firstn_all2 by lia. f_equal. f_equal. lia.
  - intros path path' f g Hne H H' E.
    destruct (tokenize_callable path (VObj fields) (List.length callbacks) f H) as [H1 _].
    destruct (tokenize_callable path' (VObj fields) (List.length callbacks) g H') as [H1' _].
    rewrite H1, H1' in E.
    assert (E' : functionName (List.length callbacks + rank path (VObj fields)) =
                 functionName (List.length callbacks + rank path' (VObj fields)))
      by congruence.
    apply functionName_inj in E'.
    apply (rank_inj _ _ _ _ _ Hne H H'). lia.
  - intros path u H Hu. now apply tokenize_plain.
  - intros path. apply tokenize_keys.
Qed.

Lemma wrapFunctions_marshals_witness :
  well_formed (VObj counterComponent) = true
  /\ exists fields' callbacks',
       wrapFunctions (VObj counterComponent) [5] = Ok (VObj fields', callbacks')
       /\ callbacks' = [5] ++ callables (VObj counterComponent).
Proof.
  split; [reflexivity|].
  destruct (wrapFunctions_marshals counterComponent [5] eq_refl)
    as (fields' & callbacks' & H1 & H2 & _).
  exists fields', callbacks'. split; assumption.
Defined.

(** ** Un-marshalling in the page *)

Section Unmarshalling.
Variable ToNumber : string -> number.
Variable resolveImports : rvalue -> option rvalue.

Lemma revive_keys (l : props closure) :
  map fst (map (fun kv => (fst kv, revive ToNumber (snd kv))) l) = map fst l.
Proof. rewrite map_map. now apply map_ext. Qed.

Lemma unwrap_entries_spec (entries : props closure) :
  Forall (fun kv => unwrap_meets_spec ToNumber (snd kv)) entries ->
  forall done : props closure,
    distinct_keys (map fst (done ++ entries)) = true ->
    forallb (fun kv => well_formed (snd kv)) entries = true ->
    unwrap_entries ToNumber (unwrapFunctions ToNumber) entries (done ++ entries) =
    Ok (done ++ map (fun kv => (fst kv, revive ToNumber (snd kv))) entries).
Proof.
  induction 1 as [|[key x] rest Hx _ IH]; intros done Hkeys Hwf.
  - reflexivity.
  - assert (Hfresh : ~ In key (map fst done)).
    { rewrite map_app in Hkeys. cbn in Hkeys. now apply distinct_keys_middle in Hkeys. }
    cbn [forallb snd] in Hwf. apply andb_true_iff in Hwf. destruct Hwf as [Hwx Hwrest].
    assert (Hnext : forall y,
               distinct_keys (map fst ((done ++ [(key, y)]) ++ rest)) = true).
    { intros y. rewrite <- app_assoc. cbn.
      rewrite map_app in *. cbn in *. exact Hkeys. }
    assert (Hstep : forall y,
               unwrap_entries ToNumber (unwrapFunctions ToNumber) rest
                 (done ++ (key, y) :: rest) =
               Ok (done ++ (key, y)
                     :: map (fun kv => (fst kv, revive ToNumber (snd kv))) rest)).
    { intros y. specialize (IH (done ++ [(key, y)]) (Hnext y) Hwrest).
      rewrite <- !app_assoc in IH. exact IH. }
    cbn [unwrap_entries map fst snd].
    destruct x as [| | b | n | s | f | sub]; cbn [is_object typeof String.eqb Ascii.eqb Bool.eqb andb revive];
      try apply Hstep.
    + (* a string *)
      destruct (startsWith s "__pw_func_").
      * rewrite set_prop_here by assumption. apply Hstep.
      * apply Hstep.
    + (* an object *)
      cbn in Hx. rewrite (Hx Hwx eq_refl).
      rewrite set_prop_here by assumption. apply Hstep.
Qed.

Lemma unwrapFunctions_spec (x : rvalue) : unwrap_meets_spec ToNumber x.
Proof.
  induction x as [| | b | n | s | f | fields IH] using value_ind;
    intros Hwf Hobj; try discriminate.
  apply well_formed_obj in Hwf. destruct Hwf as [Hkeys Hwf].
  pose proof (unwrap_entries_spec fields IH [] Hkeys Hwf) as E.
  cbn [app] in E. cbn [unwrapFunctions revive]. now rewrite E.
Qed.

Lemma get_prop_revive key (l : props closure) :
  get_prop key (map (fun kv => (fst kv, revive ToNumber (snd kv))) l) =
  option_map (revive ToNumber) (get_prop key l).
Proof.
  induction l as [|[k x] l IH]; [reflexivity|].
  cbn [map get_prop fst snd]. now destruct (String.eqb k key).
Qed.

Lemma at_path_revive path :
  forall v : rvalue,
    at_path path (revive ToNumber v) = option_map (revive ToNumber) (at_path path v).
Proof.
  induction path as [|key path IH]; intros v; [reflexivity|].
  destruct v as [| | | | s | |fields]; try reflexivity.
  - cbn [revive]. now destruct (startsWith s "__pw_func_").
  - cbn [revive at_path]. rewrite get_prop_revive.
    destruct (get_prop key fields); [apply IH | reflexivity].
Qed.

(** C3, amended.  Un-marshalling replaces every string that starts with
    ['__pw_func_'], whatever follows the prefix, by a closure whose ordinal is
    the numeric conversion of the rest of the string; called with any
    arguments the closure sends one message [(ordinal, args)] on the dispatch
    channel and returns [undefined] at once.  Every other value that is not
    an object is left as it is, and every object keeps its keys.  Both the
    mount script and the update script hand the un-marshalled component to
    [resolveImports]. *)
Theorem unwrapFunctions_revives (fields : props closure) :
  well_formed (VObj fields) = true ->
  exists fields',
    unwrapFunctions ToNumber (VObj fields) = Ok (VObj fields')
    /\ (forall path s,
          at_path path (VObj fields) = Some (VStr s) ->
          startsWith s "__pw_func_" = true ->
          let ordinal := ToNumber (substring_from (String.length "__pw_func_") s) in
          at_path path (VObj fields') = Some (VFunc (Dispatcher ordinal))
          /\ forall args,
               call_closure (Dispatcher ordinal) args = (VUndefined, [(ordinal, args)]))
    /\ (forall path u,
          at_path path (VObj fields) = Some u ->
          is_object u = false ->
          (forall s, u = VStr s -> startsWith s "__pw_func_" = false) ->
          at_path path (VObj fields') = Some u)
    /\ (forall path,
          option_map keys_of (at_path path (VObj fields')) =
          option_map keys_of (at_path path (VObj fields)))
    /\ (forall hooksConfig p,
          resolveImports (VObj fields') = None ->
          fst (mount_script ToNumber resolveImports (VObj fields) hooksConfig p) =
          Throw (Rejected "resolveImports"))
    /\ (forall hooksConfig p component,
          resolveImports (VObj fields') = Some component ->
          exists rootElement,
            calls (snd (mount_script ToNumber resolveImports (VObj fields) hooksConfig p)) =
            calls p ++ [PlaywrightMount component rootElement hooksConfig])
    /\ (forall p,
          update_script ToNumber resolveImports (VObj fields) p =
          match resolveImports (VObj fields') with
          | None => (Throw (Rejected "resolveImports"), p)
          | Some component =>
              (Ok tt, with_call p (PlaywrightUpdate
                                     (getElementById "root" (document p)) component))
          end).
Proof.
  intros Hwf.
  pose proof (unwrapFunctions_spec (VObj fields) Hwf eq_refl) as E.
  exists (map (fun kv => (fst kv, revive ToNumber (snd kv))) fields).
  change (VObj (map (fun kv => (fst kv, revive ToNumber (snd kv))) fields))
    with (revive ToNumber (VObj fields)).
  split; [exact E|].
  split; [|split; [|split; [|split; [|split]]]].
  - intros path s H Hs ordinal. split; [|reflexivity].
    rewrite at_path_revive, H. cbn [option_map revive]. now rewrite Hs.
  - intros path u H Hu Hs.
    rewrite at_path_revive, H. cbn [option_map]. f_equal.
    destruct u; try reflexivity; try discriminate.
    cbn [revive]. now rewrite (Hs s eq_refl).
  - intros path. rewrite at_path_revive.
    destruct (at_path path (VObj fields)) as [u|]; [|reflexivity].
    cbn [option_map]. f_equal. destruct u; try reflexivity.
    + cbn [revive]. now destruct (startsWith s "__pw_func_").
    + cbn [revive keys_of]. now rewrite revive_keys.
  - intros hooksConfig p R. unfold mount_script. rewrite E.
    destruct (getElementById "root" (document p)); now rewrite R.
  - intros hooksConfig p component R. unfold mount_script. rewrite E.
    destruct (getElementById "root" (document p)) as [r|]; rewrite R; cbn.
    + now exists r.
    + now exists (List.length (document p)).
  - intros p. unfold update_script. now rewrite E.
Qed.

End Unmarshalling.

Lemma unwrapFunctions_revives_witness :
  well_formed (VObj clickable) = true
  /\ exists fields',
       unwrapFunctions digits_to_number (VObj clickable) = Ok (VObj fields')
       /\ at_path ["onClick"] (VObj fields') = Some (VFunc (Dispatcher (Int 3))).
Proof.
  split; [reflexivity|].
  destruct (unwrapFunctions_revives digits_to_number resolve_all clickable eq_refl)
    as (fields' & H1 & H2 & _).
  exists fields'. split; [exact H1|].
  exact (proj1 (H2 ["onClick"] "__pw_func_3" eq_refl eq_refl)).
Defined.

(** C3 as stated fails: the string ['__pw_func_x'] does not have the token
    format, and un-marshalling replaces it by a closure all the same. *)
Lemma unwrapFunctions_replaces_a_non_token :
  is_token "__pw_func_x" = false
  /\ well_formed titled = true
  /\ unwrapFunctions digits_to_number titled =
     Ok (VObj [("title", VFunc (Dispatcher (NonInt "NaN")))]).
Proof. repeat split. Qed.

(** ** Defining properties *)

Section SetProp.
Context {F : Type}.
Implicit Types (o : props F) (v : value F).

Lemma get_replace_prop_same key v o :
  has_prop key o = true -> get_prop key (replace_prop key v o) = Some v.
Proof.
  unfold has_prop.
  induction o as [|[k x] o IH]; cbn [get_prop replace_prop]; [discriminate|].
  destruct (String.eqb k key) eqn:E; cbn [get_prop]; rewrite E; auto.
Qed.

Lemma get_replace_prop_other key key' v o :
  key <> key' -> get_prop key' (replace_prop key v o) = get_prop key' o.
Proof.
  intros Hne.
  induction o as [|[k x] o IH]; cbn [get_prop replace_prop]; [reflexivity|].
  destruct (String.eqb k key) eqn:E; cbn [get_prop].
  - apply String.eqb_eq in E. subst k.
    apply String.eqb_neq in Hne. now rewrite Hne.
  - now rewrite IH.
Qed.

Lemma get_insert_index i key key' v o :
  get_prop key o = None ->
  get_prop key' (insert_index i key v o) =
  if String.eqb key key' then Some v else get_prop key' o.
Proof.
  induction o as [|[k x] o IH]; cbn [get_prop insert_index]; [reflexivity|].
  destruct (String.eqb k key) eqn:E; [discriminate|]. intros Hnone.
  destruct (array_index k) as [j|]; [destruct (j <? i)%N|]; cbn [get_prop]; try reflexivity.
  rewrite (IH Hnone).
  destruct (String.eqb key key') eqn:K; [|reflexivity].
  apply String.eqb_eq in K. subst key'. now rewrite E.
Qed.

Lemma get_add_prop key key' v o :
  get_prop key o = None ->
  get_prop key' (add_prop key v o) =
  if String.eqb key key' then Some v else get_prop key' o.
Proof.
  intros Hnone. unfold add_prop.
  destruct (array_index key); [now apply get_insert_index|].
  rewrite get_prop_app. cbn [get_prop].
  destruct (String.eqb key key') eqn:K.
  - apply String.eqb_eq in K. subst key'. now rewrite Hnone.
  - now destruct (get_prop key' o).
Qed.

(** Reading after [object[key] = v]. *)
Lemma get_set_prop key key' v o :
  get_prop key' (set_prop key v o) =
  if String.eqb key key' then Some v else get_prop key' o.
Proof.
  unfold set_prop. destruct (has_prop key o) eqn:H.
  - destruct (String.eqb key key') eqn:K.
    + apply String.eqb_eq in K. subst key'. now apply get_replace_prop_same.
    + apply String.eqb_neq in K. now apply get_replace_prop_other.
  - apply get_add_prop. unfold has_prop in H.
    now destruct (get_prop key o).
Qed.

(** Reading after a spread: the property of the spread value wins. *)
Lemma get_spread entries :
  forall o key,
    distinct_keys (map fst entries) = true ->
    get_prop key (fold_left (fun o kv => set_prop (fst kv) (snd kv) o) entries o) =
    match get_prop key entries with
    | Some v => Some v
    | None => get_prop key o
    end.
Proof.
  induction entries as [|[k x] entries IH]; intros o key Hd; [reflexivity|].
  cbn [map fst] in Hd. apply distinct_keys_cons in Hd. destruct Hd as [Hk Hd].
  cbn [fold_left fst snd get_prop]. rewrite (IH _ _ Hd), get_set_prop.
  destruct (get_prop key entries) as [v|] eqn:E;
    destruct (String.eqb k key) eqn:K; try reflexivity.
  apply String.eqb_eq in K. subst k. apply get_prop_in in E. contradiction.
Qed.

Lemma get_spread_absent entries :
  forall o key,
    get_prop key entries = None ->
    get_prop key (fold_left (fun o kv => set_prop (fst kv) (snd kv) o) entries o) =
    get_prop key o.
Proof.
  induction entries as [|[k x] entries IH]; intros o key H; [reflexivity|].
  cbn [get_prop] in H. destruct (String.eqb k key) eqn:K; [discriminate|].
  cbn [fold_left fst snd]. rewrite (IH _ _ H), get_set_prop. now rewrite K.
Qed.
End SetProp.

(** ** The descriptor builder *)

Lemma isJsxComponent_tag {F} (component : value F) :
  isJsxComponent component = true ->
  member "__pw_type" component = Ok (VStr "jsx").
Proof.
  unfold isJsxComponent. rewrite andb_true_iff. intros [_ H].
  destruct (member "__pw_type" component) as [tag|]; [|discriminate].
  destruct tag; try discriminate. cbn in H.
  apply String.eqb_eq in H. now subst.
Qed.

Lemma not_jsx_tag {F} (component : value F) :
  is_object component = true ->
  isJsxComponent component = false ->
  exists tag, member "__pw_type" component = Ok tag /\ is_jsx_tag tag = false.
Proof.
  unfold isJsxComponent. intros Hobj H. rewrite Hobj in H. cbn [andb] in H.
  destruct component; try discriminate. cbn [member] in *. eauto.
Qed.

(** C7.  A component that is already tagged ['jsx'] is returned as it is,
    whatever the options. *)
Theorem createComponent_jsx {F} (component options : value F) :
  isJsxComponent component = true ->
  createComponent component options = Ok component.
Proof.
  intros H. unfold createComponent.
  now rewrite (isJsxComponent_tag component H).
Qed.

Lemma createComponent_jsx_witness :
  createComponent buttonJsx counterOptions = Ok buttonJsx.
Proof. apply (@createComponent_jsx fn). reflexivity. Defined.

(** C8.  For a type reference, missing options and empty options build the
    same descriptor without an error: the object-component tag and the
    reference, and no [props] (or any other) property.  Every property of an
    options object, [slots] included, is found on the descriptor with the
    very value it has in the options; the tag and the reference are the
    built ones unless the options carry those keys. *)
Theorem createComponent_type_reference {F} (component : value F) :
  is_object component = true ->
  isJsxComponent component = false ->
  createComponent component VUndefined =
    Ok (VObj [("__pw_type", VStr "object-component"); ("type", component)])
  /\ createComponent component (VObj []) =
       Ok (VObj [("__pw_type", VStr "object-component"); ("type", component)])
  /\ member "props" (VObj [("__pw_type", VStr "object-component"); ("type", component)])
       = Ok (@VUndefined F)
  /\ forall options,
       distinct_keys (map fst options) = true ->
       exists descriptor,
         createComponent component (VObj options) = Ok (VObj descriptor)
         /\ (forall key v,
               get_prop key options = Some v -> get_prop key descriptor = Some v)
         /\ (get_prop "__pw_type" options = None ->
             get_prop "__pw_type" descriptor = Some (VStr "object-component"))
         /\ (get_prop "type" options = None ->
             get_prop "type" descriptor = Some component)
         /\ (forall key,
               get_prop key options = None ->
               key <> "__pw_type" -> key <> "type" ->
               get_prop key descriptor = None).
Proof.
  intros Hobj Hjsx.
  destruct (not_jsx_tag component Hobj Hjsx) as (tag & Htag & Hno).
  unfold createComponent. cbn [default_empty]. rewrite Htag, Hno.
  repeat split; try reflexivity.
  intros options Hd.
  eexists. split; [reflexivity|]. unfold spread_onto. cbn [spread_entries].
  repeat split.
  - intros key v H. now rewrite (get_spread _ _ _ Hd), H.
  - intros H. now rewrite (get_spread _ _ _ Hd), H.
  - intros H. now rewrite (get_spread _ _ _ Hd), H.
  - intros key H Hk1 Hk2. rewrite (get_spread _ _ _ Hd), H. cbn [get_prop].
    apply String.eqb_neq in Hk1, Hk2.
    rewrite String.eqb_sym in Hk1. rewrite String.eqb_sym in Hk2.
    now rewrite Hk1, Hk2.
Qed.

Lemma createComponent_type_reference_witness :
  createComponent counterRef VUndefined =
    Ok (VObj [("__pw_type", VStr "object-component"); ("type", counterRef)])
  /\ exists descriptor,
       createComponent counterRef (VObj [("slots", VObj [("default", VStr "Main")])])
         = Ok (VObj descriptor)
       /\ get_prop "slots" descriptor = Some (VObj [("default", VStr "Main")]).
Proof.
  destruct (@createComponent_type_reference fn counterRef eq_refl eq_refl)
    as (H1 & _ & _ & H4).
  split; [exact H1|].
  destruct (H4 [("slots", VObj [("default", VStr "Main")])] eq_refl)
    as (descriptor & E & Hget & _).
  exists descriptor. split; [exact E|]. now apply Hget.
Defined.

(** C10, amended.  Every descriptor that the builder produces carries one
    of the two tags: ['jsx'] when the input is tagged so, whatever the
    options; ['object-component'] for any other input, provided the options
    have no [__pw_type] property of their own. *)
Theorem createComponent_tag {F} (component options descriptor : value F) :
  createComponent component options = Ok descriptor ->
  isJsxComponent component = true
  \/ get_prop "__pw_type" (spread_entries (default_empty options)) = None ->
  (isJsxComponent component = true
   /\ descriptor = component
   /\ member "__pw_type" descriptor = Ok (VStr "jsx"))
  \/ (isJsxComponent component = false
      /\ is_object descriptor = true
      /\ member "__pw_type" descriptor = Ok (VStr "object-component")).
Proof.
  unfold createComponent. intros H Hopt.
  destruct (member "__pw_type" component) as [tag|] eqn:Htag; [|discriminate].
  destruct (is_jsx_tag tag) eqn:J.
  - left. inversion H; subst descriptor.
    assert (Hjsx : isJsxComponent component = true).
    { unfold isJsxComponent. rewrite Htag, J.
      destruct component; try discriminate; try reflexivity;
        cbn in Htag; inversion Htag; subst; discriminate. }
    split; [exact Hjsx|]. split; [reflexivity|].
    now apply isJsxComponent_tag.
  - right. inversion H; subst descriptor.
    assert (Hjsx : isJsxComponent component = false).
    { unfold isJsxComponent. rewrite Htag, J. apply andb_false_r. }
    split; [exact Hjsx|]. split; [reflexivity|].
    destruct Hopt as [Hyes | Hnone]; [congruence|].
    cbn [member]. unfold spread_onto.
    now rewrite (get_spread_absent _ _ _ Hnone).
Qed.

Lemma createComponent_tag_witness :
  member "__pw_type"
    (VObj (spread_onto [("__pw_type", VStr "object-component"); ("type", counterRef)]
             counterOptions))
  = Ok (VStr "object-component").
Proof.
  destruct (@createComponent_tag fn counterRef counterOptions _ eq_refl
              (or_intror eq_refl))
    as [(H & _) | (_ & _ & H)].
  - discriminate H.
  - exact H.
Defined.

(** C10 as stated fails: options that carry a [__pw_type] property of their
    own overwrite the tag of the descriptor. *)
Lemma createComponent_tag_overwritten :
  createComponent counterRef (VObj [("__pw_type", VStr "custom")]) =
    Ok (VObj [("__pw_type", VStr "custom"); ("type", counterRef)])
  /\ member "__pw_type" (VObj [("__pw_type", VStr "custom"); ("type", counterRef)])
     = Ok (@VStr fn "custom").
Proof. split; reflexivity. Qed.

(** ** The dispatch binding *)

Lemma element_at_registered callbacks ordinal :
  registered callbacks ordinal <-> exists f, element_at callbacks ordinal = Some f.
Proof.
  split.
  - intros (n & -> & Hn). cbn [element_at].
    destruct (0 <=? Z.of_nat n)%Z eqn:E; [|apply Z.leb_gt in E; lia].
    rewrite Nat2Z.id. apply nth_error_Some in Hn.
    destruct (nth_error callbacks n) as [f|]; [eauto | congruence].
  - intros (f & H). destruct ordinal as [z|lit]; [|discriminate].
    cbn [element_at] in H. destruct (0 <=? z)%Z eqn:E; [|discriminate].
    apply Z.leb_le in E. exists (Z.to_nat z). split.
    + now rewrite Z2Nat.id.
    + apply nth_error_Some. congruence.
Qed.


(** C4.  For an ordinal that names no element of the registry, the binding
    throws, calls nothing and changes nothing. *)
Theorem dispatch_unregistered (w : world) (ordinal : number) (args : list cvalue) :
  ~ registered (boundCallbacksForMount w) ordinal ->
  __ct_dispatch (boundCallbacksForMount w) ordinal args = Throw TypeError
  /\ dispatch ordinal args w = (Throw TypeError, w).
Proof.
  intros H. unfold dispatch, __ct_dispatch.
  destruct (element_at (boundCallbacksForMount w) ordinal) as [f|] eqn:E.
  - exfalso. apply H. apply element_at_registered. eauto.
  - auto.
Qed.


Lemma dispatch_unregistered_witness :
  __ct_dispatch [5; 7; 8] (Int 3) [] = Throw TypeError.
Proof.
  refine (proj1 (dispatch_unregistered sampleWorld (Int 3) [] _)).
  intros (n & E & Hn). cbn in Hn. inversion E. lia.
Defined.

(** ** The registry only grows *)

Lemma wrap_entries_extends (entries : props fn) :
  Forall (fun kv => wrap_extends (snd kv)) entries ->
  forall object callbacks object' callbacks',
    wrap_entries wrapFunctions entries object callbacks = Ok (object', callbacks') ->
    exists new, callbacks' = callbacks ++ new.
Proof.
  induction 1 as [|[key x] rest Hx _ IH]; intros object callbacks object' callbacks' E.
  - cbn in E. inversion E; subst. exists []. now rewrite app_nil_r.
  - cbn [wrap_entries] in E.
    destruct x as [| | b | n | s | f | sub];
      cbn [typeof String.eqb Ascii.eqb Bool.eqb is_object andb] in E;
      try (now apply IH in E).
    + apply IH in E. destruct E as [new ->]. exists (f :: new).
      now rewrite <- app_assoc.
    + destruct (wrapFunctions (VObj sub) callbacks) as [[sub' mid]|] eqn:S; [|discriminate].
      apply Hx in S. destruct S as [new1 ->].
      apply IH in E. destruct E as [new2 ->]. exists (new1 ++ new2).
      now rewrite app_assoc.
Qed.

Lemma wrapFunctions_extends (x : cvalue) : wrap_extends x.
Proof.
  induction x as [| | b | n | s | f | fields IH] using value_ind;
    intros callbacks x' callbacks' E; cbn [wrapFunctions] in E;
    try discriminate;
    try (inversion E; subst; exists []; now rewrite app_nil_r).
  destruct (wrap_entries wrapFunctions fields fields callbacks) as [[o c]|] eqn:L;
    [|discriminate].
  inversion E; subst. now apply (wrap_entries_extends fields IH) in L.
Qed.

Lemma wrap_entries_returns (entries : props fn) :
  Forall (fun kv => wrap_returns (snd kv)) entries ->
  forall object callbacks,
    exists object' callbacks',
      wrap_entries wrapFunctions entries object callbacks = Ok (object', callbacks').
Proof.
  induction 1 as [|[key x] rest Hx _ IH]; intros object callbacks.
  - cbn. eauto.
  - cbn [wrap_entries].
    destruct x as [| | b | n | s | f | sub];
      cbn [typeof String.eqb Ascii.eqb Bool.eqb is_object andb]; try apply IH.
    cbn [snd] in Hx. destruct (Hx callbacks eq_refl) as (v' & c' & E).
    rewrite E. apply IH.
Qed.

(** Marshalling an object returns: the walk ends and nothing throws. *)
Lemma wrapFunctions_returns (x : cvalue) : wrap_returns x.
Proof.
  induction x as [| | b | n | s | f | fields IH] using value_ind;
    intros callbacks Hobj; try discriminate.
  destruct (wrap_entries_returns fields IH fields callbacks) as (o & c & E).
  cbn [wrapFunctions]. rewrite E. eauto.
Qed.

(** ** The root element *)

Lemma find_id_none name pos doc :
  find_id name pos doc = None <->
  filter (fun e => String.eqb (id e) name) doc = [].
Proof.
  revert pos. induction doc as [|e doc IH]; intros pos; cbn; [tauto|].
  destruct (String.eqb (id e) name).
  - split; discriminate.
  - apply IH.
Qed.

Lemma getElementById_none doc :
  getElementById "root" doc = None <-> roots doc = [].
Proof. apply find_id_none. Qed.

Lemma roots_app doc doc' : roots (doc ++ doc') = roots doc ++ roots doc'.
Proof. apply filter_app. Qed.

Lemma getElementById_created doc :
  getElementById "root" (doc ++ [root_div]) <> None.
Proof.
  rewrite getElementById_none, roots_app. cbn.
  intros H. apply app_eq_nil in H. destruct H; discriminate.
Qed.

Lemma evolves_refl w : evolves w w.
Proof. split; [exists []; now rewrite app_nil_r | now left]. Qed.

Lemma evolves_trans w1 w2 w3 : evolves w1 w2 -> evolves w2 w3 -> evolves w1 w3.
Proof.
  intros [[n1 R1] D1] [[n2 R2] D2]. split.
  - exists (n1 ++ n2). now rewrite R2, R1, app_assoc.
  - destruct D1 as [D1 | [N1 D1]].
    + rewrite D1 in D2. exact D2.
    + destruct D2 as [D2 | [N2 D2]].
      * right. split; [exact N1 | congruence].
      * rewrite D1 in N2. now apply getElementById_created in N2.
Qed.

Section Sessions.
Variable ToNumber : string -> number.
Variable resolveImports : rvalue -> option rvalue.

Local Abbreviation mount_script := (mount_script ToNumber resolveImports).
Local Abbreviation update_script := (update_script ToNumber resolveImports).
Local Abbreviation innerMount := (innerMount ToNumber resolveImports).
Local Abbreviation innerUpdate := (innerUpdate ToNumber resolveImports).
Local Abbreviation mount := (mount ToNumber resolveImports).
Local Abbreviation update := (update ToNumber resolveImports).
Local Abbreviation step := (step ToNumber resolveImports).
Local Abbreviation run_test := (run_test ToNumber resolveImports).
Local Abbreviation mount_fixture := (mount_fixture ToNumber resolveImports).
Local Abbreviation run_session := (run_session ToNumber resolveImports).
Local Abbreviation registry_trace := (registry_trace ToNumber resolveImports).

Lemma mount_script_document component hooksConfig p :
  document (snd (mount_script component hooksConfig p)) = document p
  \/ (getElementById "root" (document p) = None
      /\ document (snd (mount_script component hooksConfig p))
         = document p ++ [root_div]).
Proof.
  unfold mount_script.
  destruct (unwrapFunctions ToNumber component); [|now left].
  destruct (getElementById "root" (document p)) eqn:R.
  - left. now destruct (resolveImports a).
  - right. split; [reflexivity|]. now destruct (resolveImports a).
Qed.

Lemma mount_script_present component hooksConfig p :
  getElementById "root" (document p) <> None ->
  document (snd (mount_script component hooksConfig p)) = document p.
Proof.
  intros H. destruct (mount_script_document component hooksConfig p) as [E | [N _]];
    [exact E | contradiction].
Qed.

Lemma update_script_page component p :
  document (snd (update_script component p)) = document p
  /\ (calls (snd (update_script component p)) = calls p
      \/ exists resolved,
           calls (snd (update_script component p))
           = calls p ++ [PlaywrightUpdate (getElementById "root" (document p)) resolved]).
Proof.
  unfold update_script.
  destruct (unwrapFunctions ToNumber component); [|now split; [|left]].
  destruct (resolveImports a); cbn; split; auto. right. eauto.
Qed.

Lemma innerMount_evolves componentRef options w :
  evolves w (snd (innerMount componentRef options w)).
Proof.
  unfold innerMount.
  destruct (createComponent componentRef (default_empty options)) as [component|];
    [|apply evolves_refl].
  destruct (wrapFunctions component (boundCallbacksForMount w))
    as [[component' callbacks]|] eqn:W; [|apply evolves_refl].
  apply wrapFunctions_extends in W. destruct W as [new ->].
  assert (Hreg : evolves w (with_callbacks w (boundCallbacksForMount w ++ new))).
  { split; [now exists new | now left]. }
  cbn [with_callbacks the_page].
  destruct (negb (playwrightMount (the_page w))); [exact Hreg|].
  destruct (hooksConfig_after componentRef (default_empty options) component');
    [|exact Hreg].
  destruct (transfer component') as [c|]; [|exact Hreg].
  destruct (transfer a) as [h|]; [|exact Hreg].
  pose proof (mount_script_document c h (the_page w)) as D.
  destruct (mount_script c h (the_page w)) as [r p]. cbn [snd] in *.
  split; [now exists new | exact D].
Qed.

Lemma innerUpdate_evolves componentRef options w :
  evolves w (snd (innerUpdate componentRef options w))
  /\ document (the_page (snd (innerUpdate componentRef options w)))
     = document (the_page w).
Proof.
  unfold innerUpdate.
  destruct (createComponent componentRef (default_empty options)) as [component|];
    [|split; [apply evolves_refl | reflexivity]].
  destruct (wrapFunctions component (boundCallbacksForMount w))
    as [[component' callbacks]|] eqn:W; [|split; [apply evolves_refl | reflexivity]].
  apply wrapFunctions_extends in W. destruct W as [new ->].
  destruct (transfer component') as [c|].
  - cbn [with_callbacks the_page].
    pose proof (update_script_page c (the_page w)) as [D _].
    destruct (update_script c (the_page w)) as [r p]. cbn [snd] in *.
    split; [split; [now exists new | now left] | exact D].
  - cbn. split; [split; [now exists new | now left] | reflexivity].
Qed.

Lemma mount_evolves componentRef options w :
  evolves w (snd (mount componentRef options w)).
Proof.
  unfold mount. pose proof (innerMount_evolves componentRef options w) as H.
  destruct (innerMount componentRef options w) as [[[s|e] r] w']; exact H.
Qed.

Lemma update_evolves h x w :
  evolves w (snd (update h x w))
  /\ document (the_page (snd (update h x w))) = document (the_page w).
Proof.
  unfold update. destruct (isJsxComponent x).
  - pose proof (innerUpdate_evolves x VUndefined w) as H.
    destruct (innerUpdate x VUndefined w) as [[r c] w']. exact H.
  - pose proof (innerUpdate_evolves (componentRef h) x w) as H.
    destruct (innerUpdate (componentRef h) x w) as [[r c] w']. exact H.
Qed.

Lemma step_evolves a s :
  evolves (the_world s) (the_world (snd (step a s))).
Proof.
  destruct a as [componentRef options | i options | i | ordinal args]; cbn [step].
  - pose proof (mount_evolves componentRef options (the_world s)) as H.
    destruct (mount componentRef options (the_world s)) as [[h|e] w]; exact H.
  - destruct (nth_error (handles s) i) as [h|]; [|apply evolves_refl].
    pose proof (update_evolves h options (the_world s)) as [H _].
    destruct (update h options (the_world s)) as [[r h'] w]. exact H.
  - destruct (nth_error (handles s) i) as [h|]; [|apply evolves_refl].
    cbn. split; [exists []; now rewrite app_nil_r | now left].
  - unfold dispatch.
    destruct (__ct_dispatch (boundCallbacksForMount (the_world s)) ordinal args);
      cbn; split; try (exists []; now rewrite app_nil_r); now left.
Qed.

Lemma run_test_evolves test :
  forall s, evolves (the_world s) (the_world (run_test test s)).
Proof.
  induction test as [|a rest IH]; intros s; [apply evolves_refl|].
  cbn [run_test]. pose proof (step_evolves a s) as H.
  destruct (step a s) as [[u|e] s']; cbn [snd] in H.
  - eapply evolves_trans; [exact H | apply IH].
  - exact H.
Qed.

Lemma find_id_appended name pos doc e :
  find_id name pos doc = None ->
  String.eqb (id e) name = true ->
  find_id name pos (doc ++ [e]) = Some (pos + List.length doc).
Proof.
  revert pos. induction doc as [|d doc IH]; intros pos Hnone He; cbn in *.
  - rewrite He. f_equal. lia.
  - destruct (String.eqb (id d) name); [discriminate|].
    rewrite (IH _ Hnone He). f_equal. lia.
Qed.

(** A mount script that succeeds has called the mount entry point with the
    element that [getElementById] now finds. *)
Lemma mount_script_success component hooksConfig p sel :
  fst (mount_script component hooksConfig p) = Ok sel ->
  exists rootElement resolved,
    getElementById "root" (document (snd (mount_script component hooksConfig p)))
      = Some rootElement
    /\ calls (snd (mount_script component hooksConfig p))
       = calls p ++ [PlaywrightMount resolved rootElement hooksConfig].
Proof.
  unfold mount_script.
  destruct (unwrapFunctions ToNumber component) as [c|]; [|discriminate].
  destruct (getElementById "root" (document p)) as [r|] eqn:R.
  - destruct (resolveImports c) as [c'|]; [|discriminate]. cbn. eauto.
  - destruct (resolveImports c) as [c'|]; [|discriminate]. cbn. intros _.
    exists (List.length (document p)), c'. split; [|reflexivity].
    unfold getElementById in *.
    exact (find_id_appended "root" 0 (document p)
             {| tagName := "div"; id := "root" |} R eq_refl).
Qed.

Lemma createComponent_default {F} (component options : value F) :
  createComponent component (default_empty options) = createComponent component options.
Proof. now destruct options. Qed.

Lemma createComponent_object {F} (component options descriptor : value F) :
  createComponent component options = Ok descriptor -> is_object descriptor = true.
Proof.
  unfold createComponent.
  destruct (member "__pw_type" component) as [tag|] eqn:T; [|discriminate].
  destruct (is_jsx_tag tag) eqn:J; intros H; injection H as <-; [|reflexivity].
  destruct component; try reflexivity; cbn in T; inversion T; subst; discriminate.
Qed.

(** What [innerUpdate] does once the component is built. *)
Lemma innerUpdate_run componentRef options w component :
  createComponent componentRef options = Ok component ->
  exists component' callbacks',
    wrapFunctions component (boundCallbacksForMount w) = Ok (component', callbacks')
    /\ boundCallbacksForMount (snd (innerUpdate componentRef options w)) = callbacks'
    /\ document (the_page (snd (innerUpdate componentRef options w)))
       = document (the_page w)
    /\ match fst (fst (innerUpdate componentRef options w)) with
       | Ok _ =>
           exists transferred unwrapped resolved,
             transfer component' = Some transferred
             /\ unwrapFunctions ToNumber transferred = Ok unwrapped
             /\ resolveImports unwrapped = Some resolved
             /\ calls (the_page (snd (innerUpdate componentRef options w)))
                = calls (the_page w)
                  ++ [PlaywrightUpdate
                        (getElementById "root" (document (the_page w))) resolved]
       | Throw _ =>
           calls (the_page (snd (innerUpdate componentRef options w)))
           = calls (the_page w)
       end.
Proof.
  intros C. pose proof (createComponent_object _ _ _ C) as Hobj.
  destruct (wrapFunctions_returns component (boundCallbacksForMount w) Hobj)
    as (fields' & callbacks' & W).
  exists (VObj fields'), callbacks'. split; [exact W|].
  unfold innerUpdate. rewrite createComponent_default, C, W.
  destruct (transfer (VObj fields')) as [t|] eqn:T; [|cbn; auto].
  cbn [with_callbacks the_page]. unfold update_script.
  destruct (unwrapFunctions ToNumber t) as [u|] eqn:U; [|cbn; auto].
  destruct (resolveImports u) as [c|] eqn:R; [|cbn; auto].
  cbn. repeat split; auto. exists t, u, c. auto.
Qed.

(** ** The root element, the registry and the handle *)


Lemma update_projections h x w :
  let ref := if isJsxComponent x then x else componentRef h in
  let options := if isJsxComponent x then VUndefined else x in
  fst (fst (update h x w)) = fst (fst (innerUpdate ref options w))
  /\ snd (update h x w) = snd (innerUpdate ref options w).
Proof.
  unfold update. destruct (isJsxComponent x); cbn zeta.
  - now destruct (innerUpdate x VUndefined w) as [[r c] w'].
  - now destruct (innerUpdate (componentRef h) x w) as [[r c] w'].
Qed.

Lemma update_sends_built h x w component :
  update_component h x = Ok component ->
  update_sends ToNumber resolveImports h x w component.
Proof.
  unfold update_component, update_sends. intros C.
  destruct (update_projections h x w) as [E1 E2]. rewrite E1, E2. clear E1 E2.
  destruct (isJsxComponent x); now apply innerUpdate_run.
Qed.

Lemma run_session_resets s callbacks :
  run_session s callbacks = if defineConfigWasUsed s then [] else callbacks.
Proof. unfold run_session. now destruct (defineConfigWasUsed s). Qed.

Lemma registry_trace_empty sessions :
  Forall (fun callbacks => callbacks = []) (registry_trace sessions []).
Proof.
  induction sessions as [|s rest IH]; cbn [registry_trace].
  - now constructor.
  - constructor; [reflexivity|].
    rewrite run_session_resets. now destruct (defineConfigWasUsed s).
Qed.


End Sessions.

(** ** From a callback to its token, to a closure, and back *)

Section Transfer.
Context {F G : Type}.

Lemma transfer_image (v : value F) :
  function_free v = true -> transfer v = Some (@image F G v).
Proof.
  induction v as [| | b | n | s | f | fields IH] using value_ind;
    intros H; try reflexivity; try discriminate.
  cbn [transfer image function_free] in *.
  enough (E : (fix each (l : props F) : option (props G) :=
                 match l with
                 | [] => Some []
                 | (k, x) :: l' =>
                     match transfer x, each l' with
                     | Some x', Some l'' => Some ((k, x') :: l'')
                     | _, _ => None
                     end
                 end) fields
              = Some (map (fun kv => (fst kv, image (snd kv))) fields))
    by now rewrite E.
  induction IH as [|[k x] l Hx _ IHl]; [reflexivity|].
  cbn [forallb snd] in H. apply andb_true_iff in H. destruct H as [H1 H2].
  cbn [snd] in Hx. rewrite (Hx H1), (IHl H2). reflexivity.
Qed.

Lemma get_prop_image key (l : props F) :
  get_prop key (map (fun kv => (fst kv, @image F G (snd kv))) l) =
  option_map image (get_prop key l).
Proof.
  induction l as [|[k x] l IH]; [reflexivity|].
  cbn [map get_prop fst snd]. now destruct (String.eqb k key).
Qed.

Lemma at_path_image path :
  forall v : value F,
    function_free v = true ->
    at_path path (@image F G v) = option_map image (at_path path v).
Proof.
  induction path as [|key path IH]; intros v H; [reflexivity|].
  destruct v as [| | | | | |fields]; try reflexivity; try discriminate.
  cbn [image at_path]. rewrite get_prop_image.
  destruct (get_prop key fields) as [x|] eqn:E; [|reflexivity].
  cbn [option_map]. apply IH.
  cbn [function_free] in H. rewrite forallb_forall in H.
  clear IH. induction fields as [|[k y] l IHl]; [discriminate|].
  cbn [get_prop] in E. destruct (String.eqb k key).
  - inversion E; subst. apply (H (k, x)). now left.
  - apply IHl; [|exact E]. intros kv Hin. apply H. now right.
Qed.

Lemma well_formed_image (v : value F) :
  well_formed (@image F G v) = well_formed v.
Proof.
  induction v as [| | b | n | s | f | fields IH] using value_ind; try reflexivity.
  cbn [image well_formed]. rewrite map_map. cbn [fst]. f_equal.
  induction IH as [|[k x] l Hx _ IHl]; [reflexivity|].
  cbn [map forallb snd]. cbn [snd] in Hx. now rewrite Hx, IHl.
Qed.
End Transfer.

Lemma function_free_tokenize (v : cvalue) :
  forall next, function_free (tokenize next v) = true.
Proof.
  induction v as [| | b | n | s | f | fields IH] using value_ind;
    intros next; try reflexivity.
  rewrite tokenize_obj. cbn [function_free]. revert next.
  induction IH as [|[k x] l Hx _ IHl]; intros next; [reflexivity|].
  rewrite tokenize_entries_cons. cbn [forallb snd]. cbn [snd] in Hx.
  now rewrite Hx, IHl.
Qed.

Lemma well_formed_tokenize (v : cvalue) :
  forall next, well_formed (tokenize next v) = well_formed v.
Proof.
  induction v as [| | b | n | s | f | fields IH] using value_ind;
    intros next; try reflexivity.
  rewrite tokenize_obj. cbn [well_formed]. rewrite tokenize_entries_keys. f_equal.
  revert next.
  induction IH as [|[k x] l Hx _ IHl]; intros next; [reflexivity|].
  rewrite tokenize_entries_cons. cbn [forallb snd]. cbn [snd] in Hx.
  now rewrite Hx, IHl.
Qed.

Lemma token_parts ordinal :
  startsWith (functionName ordinal) "__pw_func_" = true
  /\ substring_from (String.length "__pw_func_") (functionName ordinal) = decimal ordinal.
Proof.
  unfold functionName, startsWith. split; [|reflexivity].
  cbn [append]. repeat (cbn [String.prefix]; destruct (ascii_dec _ _); [|congruence]).
  now destruct (decimal ordinal).
Qed.

(** X1.  A callable value of a component comes back to the test process: it is
    marshalled into a token, the token crosses the channel and becomes a
    closure in the page, and the message that the closure sends makes the
    binding call that very function with the arguments of the message,
    whatever was appended to the registry in between.  The conversion of
    the text of the ordinal to a Number has to give the ordinal back. *)
Theorem callback_round_trip (ToNumber : string -> number)
  (fields : props fn) (callbacks : list fn) (path : list string) (f : fn) :
  well_formed (VObj fields) = true ->
  at_path path (VObj fields) = Some (VFunc f) ->
  ToNumber (decimal (List.length callbacks + rank path (VObj fields)))
  = Int (Z.of_nat (List.length callbacks + rank path (VObj fields))) ->
  exists fields' callbacks' transferred fields'' ordinal,
    wrapFunctions (VObj fields) callbacks = Ok (VObj fields', callbacks')
    /\ transfer (VObj fields') = Some transferred
    /\ unwrapFunctions ToNumber transferred = Ok (VObj fields'')
    /\ at_path path (VObj fields'') = Some (VFunc (Dispatcher ordinal))
    /\ forall args more,
         __ct_dispatch (callbacks' ++ more) ordinal args = Ok [Invoke f args].
Proof.
  intros Hwf P N.
  set (n := List.length callbacks) in *.
  pose proof (wrapFunctions_spec (VObj fields) callbacks Hwf eq_refl) as W.
  fold n in W. rewrite tokenize_obj in W.
  destruct (tokenize_callable path (VObj fields) n f P) as [T R].
  pose proof (function_free_tokenize (VObj fields) n) as FF.
  pose proof (@transfer_image fn closure _ FF) as TR.
  pose proof (@at_path_image fn closure path _ FF) as AP.
  rewrite T in AP. cbn [option_map image] in AP.
  assert (Hwf' : well_formed (@image fn closure (tokenize n (VObj fields))) = true).
  { now rewrite well_formed_image, well_formed_tokenize. }
  rewrite tokenize_obj in *. cbn [image] in *.
  set (sent := map (fun kv => (fst kv, @image fn closure (snd kv)))
                 (tokenize_entries n fields)) in *.
  pose proof (unwrapFunctions_spec ToNumber (VObj sent) Hwf' eq_refl) as U.
  cbn [revive] in U.
  exists (tokenize_entries n fields), (callbacks ++ callables (VObj fields)),
         (VObj sent), (map (fun kv => (fst kv, revive ToNumber (snd kv))) sent),
         (Int (Z.of_nat (n + rank path (VObj fields)))).
  split; [exact W|]. split; [exact TR|]. split; [exact U|]. split.
  - change (VObj (map (fun kv => (fst kv, revive ToNumber (snd kv))) sent))
      with (revive ToNumber (VObj sent)).
    rewrite at_path_revive, AP. cbn [option_map revive].
    destruct (token_parts (n + rank path (VObj fields))) as [S1 S2].
    now rewrite S1, S2, N.
  - intros args more. unfold __ct_dispatch. cbn [element_at].
    destruct (0 <=? Z.of_nat (n + rank path (VObj fields)))%Z eqn:E;
      [|apply Z.leb_gt in E; lia].
    rewrite Nat2Z.id.
    pose proof (rank_bound path (VObj fields) f P) as B.
    rewrite <- app_assoc, nth_error_app2 by (subst n; lia).
    replace (n + rank path (VObj fields) - List.length callbacks)
      with (rank path (VObj fields)) by (subst n; lia).
    rewrite nth_error_app1 by exact B. now rewrite R.
Qed.

Lemma callback_round_trip_witness :
  exists fields' callbacks' transferred fields'' ordinal,
    wrapFunctions (VObj counterComponent) [5] = Ok (VObj fields', callbacks')
    /\ transfer (VObj fields') = Some transferred
    /\ unwrapFunctions digits_to_number transferred = Ok (VObj fields'')
    /\ at_path ["props"; "onClick"] (VObj fields'') = Some (VFunc (Dispatcher ordinal))
    /\ forall args more,
         __ct_dispatch (callbacks' ++ more) ordinal args = Ok [Invoke 7 args].
Proof.
  apply (callback_round_trip digits_to_number counterComponent [5]
           ["props"; "onClick"] 7); reflexivity.
Defined.

(** ** Scenarios *)

(** Mounting the counter over a fresh page: the callback is registered at
    ordinal 0, the page creates the root element and mounts the component
    with a dispatching closure in place of the callback; the closure fires
    with no argument and the callback is called once. *)
Example mount_then_click :
  run_test digits_to_number resolve_all
    [Mount counterRef clickOptions; Dispatch (Int 0) []]
    {| the_world := freshWorld; handles := [] |}
  = {| the_world :=
         {| boundCallbacksForMount := [7];
            the_page :=
              {| playwrightMount := true;
                 document := [root_div];
                 calls :=
                   [PlaywrightMount
                      (VObj [("__pw_type", VStr "object-component");
                             ("type", VObj [("__pw_type", VStr "importRef");
                                            ("id", VStr "Counter")]);
                             ("props",
                              VObj [("count", VNum (Int 0));
                                    ("onClick", VFunc (Dispatcher (Int 0)))])])
                      0 VUndefined] |};
            events := [Invoke 7 []] |};
       handles := [counterHandle] |}.
Proof. reflexivity. Qed.

(** Updating the mounted counter with new props reuses the root element and
    creates none. *)
Example update_reuses_root :
  let s := run_test digits_to_number resolve_all
             [Mount counterRef clickOptions; Update 0 countPatch]
             {| the_world := freshWorld; handles := [] |} in
  document (the_page (the_world s)) = [root_div]
  /\ calls (the_page (the_world s))
     = [PlaywrightMount
          (VObj [("__pw_type", VStr "object-component");
                 ("type", VObj [("__pw_type", VStr "importRef");
                                ("id", VStr "Counter")]);
                 ("props",
                  VObj [("count", VNum (Int 0));
                        ("onClick", VFunc (Dispatcher (Int 0)))])])
          0 VUndefined;
        PlaywrightUpdate (Some 0)
          (VObj [("__pw_type", VStr "object-component");
                 ("type", VObj [("__pw_type", VStr "importRef");
                                ("id", VStr "Counter")]);
                 ("props", VObj [("count", VNum (Int 1))])])].
Proof. split; reflexivity. Qed.

(** Mounting a declarative component leaves its token in the component that
    the handle keeps. *)
Example mount_jsx_keeps_token :
  handles (run_test digits_to_number resolve_all [Mount buttonJsx VUndefined]
             {| the_world := freshWorld; handles := [] |})
  = [buttonHandle].
Proof. reflexivity. Qed.

(** A page without the framework stub: the mount times out, after the
    callbacks were registered. *)
Example mount_times_out :
  mount digits_to_number resolve_all counterRef clickOptions
    {| boundCallbacksForMount := [];
       the_page := {| playwrightMount := false; document := []; calls := [] |};
       events := [] |}
  = (Throw TimeoutError,
     {| boundCallbacksForMount := [7];
        the_page := {| playwrightMount := false; document := []; calls := [] |};
        events := [] |}).
Proof. reflexivity. Qed.

(** * Further properties *)

(** ** Marshalled components *)

Lemma callables_function_free (v : cvalue) :
  function_free v = true -> callables v = [].
Proof.
  induction v as [| | b | n | s | f | fields IH] using value_ind;
    intros H; try reflexivity; try discriminate.
  cbn [callables function_free] in *.
  induction IH as [|[k x] l Hx _ IHl]; [reflexivity|].
  cbn [forallb snd] in H. apply andb_true_iff in H. destruct H as [H1 H2].
  cbn [flat_map snd]. cbn [snd] in Hx. now rewrite (Hx H1), (IHl H2).
Qed.

Lemma tokenize_function_free (v : cvalue) :
  function_free v = true -> forall next, tokenize next v = v.
Proof.
  induction v as [| | b | n | s | f | fields IH] using value_ind;
    intros H next; try reflexivity; try discriminate.
  rewrite tokenize_obj. f_equal. cbn [function_free] in H. revert next.
  induction IH as [|[k x] l Hx _ IHl]; intros next; [reflexivity|].
  cbn [forallb snd] in H. apply andb_true_iff in H. destruct H as [H1 H2].
  rewrite tokenize_entries_cons. cbn [snd] in Hx.
  rewrite (Hx H1), (callables_function_free x H1), (IHl H2). reflexivity.
Qed.

(** X3.  Once a component is marshalled nothing callable is left in it: it
    crosses the transfer channel, and marshalling it again, against any
    registry, changes neither the component nor the registry. *)
Theorem marshalled_is_stable (fields : props fn) (callbacks : list fn) :
  well_formed (VObj fields) = true ->
  exists fields' callbacks',
    wrapFunctions (VObj fields) callbacks = Ok (VObj fields', callbacks')
    /\ function_free (VObj fields') = true
    /\ (exists sent : rvalue, transfer (VObj fields') = Some sent)
    /\ forall later,
         wrapFunctions (VObj fields') later = Ok (VObj fields', later).
Proof.
  intros Hwf.
  exists (tokenize_entries (List.length callbacks) fields),
         (callbacks ++ callables (VObj fields)).
  rewrite <- tokenize_obj.
  pose proof (function_free_tokenize (VObj fields) (List.length callbacks)) as FF.
  split; [now apply wrapFunctions_spec|]. split; [exact FF|]. split.
  - exists (image (tokenize (List.length callbacks) (VObj fields))).
    now apply transfer_image.
  - intros later.
    assert (W : well_formed (tokenize (List.length callbacks) (VObj fields)) = true)
      by now rewrite well_formed_tokenize.
    rewrite (wrapFunctions_spec _ later W eq_refl).
    now rewrite (tokenize_function_free _ FF), (callables_function_free _ FF), app_nil_r.
Qed.

Lemma marshalled_is_stable_witness :
  exists fields' callbacks',
    wrapFunctions (VObj counterComponent) [5] = Ok (VObj fields', callbacks')
    /\ wrapFunctions (VObj fields') callbacks' = Ok (VObj fields', callbacks').
Proof.
  destruct (marshalled_is_stable counterComponent [5] eq_refl)
    as (fields' & callbacks' & H1 & _ & _ & H4).
  exists fields', callbacks'. split; [exact H1 | apply H4].
Defined.

(** ** Un-marshalled components *)

Section Unmarshalled.
Variable ToNumber : string -> number.

Lemma revive_revive (v : rvalue) :
  revive ToNumber (revive ToNumber v) = revive ToNumber v.
Proof.
  induction v as [| | b | n | s | f | fields IH] using value_ind; try reflexivity.
  - cbn [revive]. destruct (startsWith s "__pw_func_") eqn:E; cbn [revive].
    + reflexivity.
    + now rewrite E.
  - cbn [revive]. f_equal. rewrite map_map. cbn [fst snd].
    induction IH as [|[k x] l Hx _ IHl]; [reflexivity|].
    cbn [map fst snd]. cbn [snd] in Hx. now rewrite Hx, IHl.
Qed.

Lemma well_formed_revive (v : rvalue) :
  well_formed (revive ToNumber v) = well_formed v.
Proof.
  induction v as [| | b | n | s | f | fields IH] using value_ind; try reflexivity.
  - cbn [revive]. now destruct (startsWith s "__pw_func_").
  - cbn [revive well_formed]. rewrite revive_keys. f_equal.
    induction IH as [|[k x] l Hx _ IHl]; [reflexivity|].
    cbn [map forallb fst snd]. cbn [snd] in Hx. now rewrite Hx, IHl.
Qed.

(** X4.  Un-marshalling a component that was un-marshalled already leaves
    it as it is: every token has become a closure, and a closure is no
    string. *)
Theorem unwrapFunctions_twice (fields : props closure) (unwrapped : rvalue) :
  well_formed (VObj fields) = true ->
  unwrapFunctions ToNumber (VObj fields) = Ok unwrapped ->
  unwrapFunctions ToNumber unwrapped = Ok unwrapped.
Proof.
  intros Hwf U.
  pose proof (unwrapFunctions_spec ToNumber (VObj fields) Hwf eq_refl) as S.
  assert (E : unwrapped = revive ToNumber (VObj fields)) by congruence.
  subst unwrapped.
  assert (W : well_formed (revive ToNumber (VObj fields)) = true)
    by now rewrite well_formed_revive.
  pose proof (unwrapFunctions_spec ToNumber _ W eq_refl) as S2.
  now rewrite revive_revive in S2.
Qed.
End Unmarshalled.

Lemma unwrapFunctions_twice_witness :
  unwrapFunctions digits_to_number
    (VObj [("label", VStr "ok"); ("onClick", VFunc (Dispatcher (Int 3)))])
  = Ok (VObj [("label", VStr "ok"); ("onClick", VFunc (Dispatcher (Int 3)))]).
Proof.
  apply (unwrapFunctions_twice digits_to_number clickable); reflexivity.
Defined.

(** ** Outcomes of a mount *)

Section MountOutcomes.
Variable ToNumber : string -> number.
Variable resolveImports : rvalue -> option rvalue.

Local Abbreviation mount_script := (mount_script ToNumber resolveImports).
Local Abbreviation update_script := (update_script ToNumber resolveImports).
Local Abbreviation innerMount := (innerMount ToNumber resolveImports).
Local Abbreviation mount := (mount ToNumber resolveImports).
Local Abbreviation update := (update ToNumber resolveImports).

Lemma mount_script_outcome component hooksConfig p :
  match fst (mount_script component hooksConfig p) with
  | Ok sel => sel = "#root >> internal:control=component"
  | Throw _ => calls (snd (mount_script component hooksConfig p)) = calls p
  end.
Proof.
  unfold mount_script.
  destruct (unwrapFunctions ToNumber component) as [c|]; [|reflexivity].
  destruct (getElementById "root" (document p));
    destruct (resolveImports c); reflexivity.
Qed.

(** X5.  A mount that succeeds has called the mount entry point of the page
    exactly once, with the root element that the document now holds, and
    returns the selector of the component under that element; a mount that
    fails, at whatever step, has not called into the framework at all. *)
Theorem mount_calls_once (ref options : cvalue) (w : world) :
  match mount ref options w with
  | (Ok h, w') =>
      selector h = "#root >> internal:control=component"
      /\ exists rootElement component hooksConfig,
           getElementById "root" (document (the_page w')) = Some rootElement
           /\ calls (the_page w')
              = calls (the_page w)
                ++ [PlaywrightMount component rootElement hooksConfig]
  | (Throw _, w') => calls (the_page w') = calls (the_page w)
  end.
Proof.
  unfold mount, innerMount.
  destruct (createComponent ref (default_empty options)) as [component|];
    [|reflexivity].
  destruct (wrapFunctions component (boundCallbacksForMount w))
    as [[component' callbacks]|]; [|reflexivity].
  cbn [with_callbacks the_page].
  destruct (negb (playwrightMount (the_page w))); [reflexivity|].
  destruct (hooksConfig_after ref (default_empty options) component') as [hc|];
    [|reflexivity].
  destruct (transfer component') as [c|]; [|reflexivity].
  destruct (transfer hc) as [h|]; [|reflexivity].
  pose proof (mount_script_outcome c h (the_page w)) as O.
  pose proof (mount_script_success ToNumber resolveImports c h (the_page w)) as S.
  destruct (mount_script c h (the_page w)) as [[sel|e] p]; cbn [fst snd] in *.
  - split; [exact O|].
    destruct (S sel eq_refl) as (r & res & H1 & H2). exists r, res, h. auto.
  - exact O.
Qed.

(** X6.  When the registry of the page rejects the component, the update
    script leaves the page exactly as it was, while the mount script has
    already looked for the root element and created it if it was missing:
    the mount is rejected, the framework is not called, and the root
    element is there all the same. *)
Theorem rejected_import (component hooksConfig unwrapped : rvalue) (p : page) :
  unwrapFunctions ToNumber component = Ok unwrapped ->
  resolveImports unwrapped = None ->
  update_script component p = (Throw (Rejected "resolveImports"), p)
  /\ fst (mount_script component hooksConfig p) = Throw (Rejected "resolveImports")
  /\ calls (snd (mount_script component hooksConfig p)) = calls p
  /\ getElementById "root" (document (snd (mount_script component hooksConfig p)))
     = Some (root_position (document p))
  /\ (getElementById "root" (document p) = None ->
      document (snd (mount_script component hooksConfig p))
      = document p ++ [root_div]).
Proof.
  intros U R. unfold update_script, mount_script, root_position.
  rewrite U, R.
  destruct (getElementById "root" (document p)) as [r|] eqn:G; cbn [fst snd].
  - cbn. repeat split; auto. discriminate.
  - cbn. repeat split; auto.
    exact (find_id_appended "root" 0 (document p)
             {| tagName := "div"; id := "root" |} G eq_refl).
Qed.

(** X7.  The callbacks are registered before the controller waits for the
    page: on a page that never installs the framework stub the mount times
    out, the page is untouched, and the callable values of the component are
    in the registry all the same. *)
Theorem mount_before_ready (ref options component : cvalue) (w : world) :
  playwrightMount (the_page w) = false ->
  createComponent ref options = Ok component ->
  well_formed component = true ->
  mount ref options w
  = (Throw TimeoutError,
     with_callbacks w (boundCallbacksForMount w ++ callables component)).
Proof.
  intros P C Hwf. unfold mount, innerMount.
  rewrite createComponent_default, C.
  rewrite (wrapFunctions_spec component (boundCallbacksForMount w) Hwf
             (createComponent_object _ _ _ C)).
  cbn [with_callbacks the_page]. now rewrite P.
Qed.

(** X8.  The default of the options applies to [undefined] only.  An update
    with [null] options behaves as an update without options.  A mount with
    [null] options marshals the bare component, waits for the page, and then
    throws on reading [options.hooksConfig]: the registry has grown and the
    page is untouched. *)
Theorem null_options (ref component : cvalue) (w : world) :
  playwrightMount (the_page w) = true ->
  createComponent ref VNull = Ok component ->
  well_formed component = true ->
  createComponent ref VUndefined = Ok component
  /\ mount ref VNull w
     = (Throw TypeError,
        with_callbacks w (boundCallbacksForMount w ++ callables component))
  /\ forall h w0, update h VNull w0 = update h VUndefined w0.
Proof.
  intros P C Hwf. split; [|split].
  - exact C.
  - unfold mount, innerMount. cbn [default_empty]. rewrite C.
    rewrite (wrapFunctions_spec component (boundCallbacksForMount w) Hwf
               (createComponent_object _ _ _ C)).
    cbn [with_callbacks the_page]. now rewrite P.
  - reflexivity.
Qed.

End MountOutcomes.

Lemma rejected_import_witness :
  fst (mount_script digits_to_number resolve_none (VObj clickable) VUndefined blankPage)
    = Throw (Rejected "resolveImports")
  /\ document (snd (mount_script digits_to_number resolve_none (VObj clickable)
                      VUndefined blankPage))
     = [root_div].
Proof.
  destruct (rejected_import digits_to_number resolve_none (VObj clickable) VUndefined
              _ blankPage eq_refl eq_refl) as (_ & H2 & _ & _ & H5).
  split; [exact H2 | exact (H5 eq_refl)].
Defined.

Lemma mount_before_ready_witness :
  mount digits_to_number resolve_all counterRef clickOptions
    {| boundCallbacksForMount := [5]; the_page := bootingPage; events := [] |}
  = (Throw TimeoutError,
     {| boundCallbacksForMount := [5; 7]; the_page := bootingPage; events := [] |}).
Proof.
  exact (mount_before_ready digits_to_number resolve_all counterRef clickOptions _
           {| boundCallbacksForMount := [5]; the_page := bootingPage; events := [] |}
           eq_refl eq_refl eq_refl).
Defined.

Lemma null_options_witness :
  mount digits_to_number resolve_all counterRef VNull sampleWorld
  = (Throw TypeError, sampleWorld).
Proof.
  exact (proj1 (proj2 (null_options digits_to_number resolve_all counterRef _
                         sampleWorld eq_refl eq_refl eq_refl))).
Defined.

(** ** What reaches the page *)

Lemma keys_of_image {F G} (v : value F) : keys_of (@image F G v) = keys_of v.
Proof.
  destruct v; try reflexivity. cbn [image keys_of]. f_equal.
  rewrite map_map. now apply map_ext.
Qed.

Lemma keys_of_revive ToNumber (v : rvalue) : keys_of (revive ToNumber v) = keys_of v.
Proof.
  destruct v; try reflexivity.
  - cbn [revive]. now destruct (startsWith s "__pw_func_").
  - cbn [revive keys_of]. now rewrite revive_keys.
Qed.

(** Marshalling, transfer and un-marshalling of a well-formed component, in
    one step. *)
Lemma component_in_page ToNumber (fields : props fn) (callbacks : list fn) :
  well_formed (VObj fields) = true ->
  let marshalled := tokenize (List.length callbacks) (VObj fields) in
  wrapFunctions (VObj fields) callbacks
    = Ok (marshalled, callbacks ++ callables (VObj fields))
  /\ transfer marshalled = Some (@image fn closure marshalled)
  /\ unwrapFunctions ToNumber (image marshalled)
     = Ok (revive ToNumber (image marshalled))
  /\ forall path,
       at_path path (revive ToNumber (@image fn closure marshalled))
       = option_map (fun u => revive ToNumber (image u)) (at_path path marshalled).
Proof.
  intros Hwf marshalled.
  pose proof (function_free_tokenize (VObj fields) (List.length callbacks)) as FF.
  fold marshalled in FF.
  split; [now apply wrapFunctions_spec|].
  split; [now apply transfer_image|]. split.
  - apply unwrapFunctions_spec.
    + unfold marshalled. now rewrite well_formed_image, well_formed_tokenize.
    + reflexivity.
  - intros path. rewrite at_path_revive, (at_path_image path marshalled FF).
    now destruct (at_path path marshalled).
Qed.

(** X9.  Everything in a component that is neither a function nor a string
    starting with ['__pw_func_'] reaches the page as it was written in the
    test: marshalling, transfer and un-marshalling keep every such value at
    its path and keep the keys of every object, in order. *)
Theorem data_reaches_page (ToNumber : string -> number)
  (fields : props fn) (callbacks : list fn) :
  well_formed (VObj fields) = true ->
  exists marshalled callbacks' sent unwrapped,
    wrapFunctions (VObj fields) callbacks = Ok (marshalled, callbacks')
    /\ transfer marshalled = Some sent
    /\ unwrapFunctions ToNumber sent = Ok unwrapped
    /\ (forall path u,
          at_path path (VObj fields) = Some u ->
          is_plain u = true ->
          (forall s, u = VStr s -> startsWith s "__pw_func_" = false) ->
          at_path path unwrapped = Some (image u))
    /\ (forall path,
          option_map keys_of (at_path path unwrapped)
          = option_map keys_of (at_path path (VObj fields))).
Proof.
  intros Hwf.
  destruct (component_in_page ToNumber fields callbacks Hwf) as (W & T & U & P).
  eexists _, _, _, _. split; [exact W|]. split; [exact T|]. split; [exact U|].
  split.
  - intros path u H Hu Hs. rewrite P.
    rewrite (tokenize_plain path (VObj fields) u _ H Hu). cbn [option_map]. f_equal.
    destruct u; try reflexivity; try discriminate.
    cbn [image revive]. now rewrite (Hs s eq_refl).
  - intros path. rewrite P, <- (tokenize_keys path (VObj fields) (List.length callbacks)).
    destruct (at_path path (tokenize (List.length callbacks) (VObj fields)));
      [|reflexivity].
    cbn [option_map]. now rewrite keys_of_revive, keys_of_image.
Qed.

Lemma data_reaches_page_witness :
  exists marshalled callbacks' sent unwrapped,
    wrapFunctions (VObj counterComponent) [5] = Ok (marshalled, callbacks')
    /\ transfer marshalled = Some sent
    /\ unwrapFunctions digits_to_number sent = Ok unwrapped
    /\ at_path ["props"; "count"] unwrapped = Some (VNum (Int 0)).
Proof.
  destruct (data_reaches_page digits_to_number counterComponent [5] eq_refl)
    as (m & c & s & u & H1 & H2 & H3 & H4 & _).
  exists m, c, s, u. repeat split; try assumption.
  apply (H4 ["props"; "count"] (VNum (Int 0)) eq_refl eq_refl). discriminate.
Defined.

(** X10.  A string that the test wrote into a component and that starts
    with ['__pw_func_'] does not reach the page as a string: marshalling and
    transfer keep it, and un-marshalling takes it for a token and puts a
    closure in its place, whose ordinal is the numeric conversion of the rest
    of the string. *)
Theorem prefixed_string_becomes_closure (ToNumber : string -> number)
  (fields : props fn) (callbacks : list fn) (path : list string) (s : string) :
  well_formed (VObj fields) = true ->
  at_path path (VObj fields) = Some (VStr s) ->
  startsWith s "__pw_func_" = true ->
  exists marshalled callbacks' sent unwrapped,
    wrapFunctions (VObj fields) callbacks = Ok (marshalled, callbacks')
    /\ at_path path marshalled = Some (VStr s)
    /\ transfer marshalled = Some sent
    /\ at_path path sent = Some (VStr s)
    /\ unwrapFunctions ToNumber sent = Ok unwrapped
    /\ at_path path unwrapped
       = Some (VFunc (Dispatcher
                        (ToNumber (substring_from (String.length "__pw_func_") s)))).
Proof.
  intros Hwf H Hs.
  destruct (component_in_page ToNumber fields callbacks Hwf) as (W & T & U & P).
  pose proof (tokenize_plain path (VObj fields) (VStr s) (List.length callbacks)
                H eq_refl) as M.
  eexists _, _, _, _. split; [exact W|]. split; [exact M|].
  split; [exact T|]. split; [|split; [exact U|]].
  - rewrite at_path_image by apply function_free_tokenize. now rewrite M.
  - rewrite P, M. cbn [option_map image revive]. now rewrite Hs.
Qed.

Lemma prefixed_string_becomes_closure_witness :
  exists marshalled callbacks' sent unwrapped,
    wrapFunctions (VObj labelled) [5] = Ok (marshalled, callbacks')
    /\ transfer marshalled = Some sent
    /\ unwrapFunctions digits_to_number sent = Ok unwrapped
    /\ at_path ["props"; "label"] unwrapped = Some (VFunc (Dispatcher (Int 0))).
Proof.
  destruct (prefixed_string_becomes_closure digits_to_number labelled [5]
              ["props"; "label"] "__pw_func_0" eq_refl eq_refl eq_refl)
    as (m & c & s & u & H1 & _ & H3 & _ & H5 & H6).
  exists m, c, s, u. repeat split; assumption.
Defined.

(** ** One root element for a whole session *)

Section OneRoot.
Variable ToNumber : string -> number.
Variable resolveImports : rvalue -> option rvalue.

Local Abbreviation mount_script := (mount_script ToNumber resolveImports).
Local Abbreviation update_script := (update_script ToNumber resolveImports).
Local Abbreviation innerMount := (innerMount ToNumber resolveImports).
Local Abbreviation innerUpdate := (innerUpdate ToNumber resolveImports).
Local Abbreviation mount := (mount ToNumber resolveImports).
Local Abbreviation update := (update ToNumber resolveImports).
Local Abbreviation step := (step ToNumber resolveImports).
Local Abbreviation run_test := (run_test ToNumber resolveImports).

Lemma mount_script_root component hooksConfig p r :
  getElementById "root" (document p) = Some r
  \/ (getElementById "root" (document p) = None /\ r = List.length (document p)) ->
  match fst (mount_script component hooksConfig p) with
  | Ok _ =>
      getElementById "root" (document (snd (mount_script component hooksConfig p)))
        = Some r
      /\ exists resolved,
           calls (snd (mount_script component hooksConfig p))
           = calls p ++ [PlaywrightMount resolved r hooksConfig]
  | Throw _ =>
      calls (snd (mount_script component hooksConfig p)) = calls p
      /\ (document (snd (mount_script component hooksConfig p)) = document p
          \/ getElementById "root"
               (document (snd (mount_script component hooksConfig p))) = Some r)
  end.
Proof.
  intros Hr. unfold mount_script.
  destruct (unwrapFunctions ToNumber component) as [c|]; [|cbn; auto].
  destruct Hr as [G | [G ->]]; rewrite G.
  - destruct (resolveImports c) as [c'|]; cbn; eauto.
  - pose proof (find_id_appended "root" 0 (document p)
                  {| tagName := "div"; id := "root" |} G eq_refl) as A.
    destruct (resolveImports c) as [c'|]; cbn; eauto.
Qed.

Lemma mount_root ref options w r :
  getElementById "root" (document (the_page w)) = Some r
  \/ (getElementById "root" (document (the_page w)) = None
      /\ r = List.length (document (the_page w))) ->
  match mount ref options w with
  | (Ok _, w') =>
      getElementById "root" (document (the_page w')) = Some r
      /\ exists resolved hooksConfig,
           calls (the_page w') = calls (the_page w)
                                 ++ [PlaywrightMount resolved r hooksConfig]
  | (Throw _, w') =>
      calls (the_page w') = calls (the_page w)
      /\ (document (the_page w') = document (the_page w)
          \/ getElementById "root" (document (the_page w')) = Some r)
  end.
Proof.
  intros Hr. unfold mount, innerMount.
  destruct (createComponent ref (default_empty options)) as [component|];
    [|cbn; auto].
  destruct (wrapFunctions component (boundCallbacksForMount w))
    as [[component' callbacks]|]; [|cbn; auto].
  cbn [with_callbacks the_page].
  destruct (negb (playwrightMount (the_page w))); [cbn; auto|].
  destruct (hooksConfig_after ref (default_empty options) component') as [hc|];
    [|cbn; auto].
  destruct (transfer component') as [c|]; [|cbn; auto].
  destruct (transfer hc) as [h|]; [|cbn; auto].
  pose proof (mount_script_root c h (the_page w) r Hr) as M.
  destruct (mount_script c h (the_page w)) as [[sel|e] p]; cbn [fst snd] in *.
  - destruct M as [G [res C]]. cbn. eauto.
  - exact M.
Qed.

Lemma innerUpdate_page ref options w :
  document (the_page (snd (innerUpdate ref options w))) = document (the_page w)
  /\ (calls (the_page (snd (innerUpdate ref options w))) = calls (the_page w)
      \/ exists resolved,
           calls (the_page (snd (innerUpdate ref options w)))
           = calls (the_page w)
             ++ [PlaywrightUpdate
                   (getElementById "root" (document (the_page w))) resolved]).
Proof.
  unfold innerUpdate.
  destruct (createComponent ref (default_empty options)) as [component|];
    [|cbn; auto].
  destruct (wrapFunctions component (boundCallbacksForMount w))
    as [[component' callbacks]|]; [|cbn; auto].
  destruct (transfer component') as [c|]; [|cbn; auto].
  cbn [with_callbacks the_page].
  pose proof (update_script_page ToNumber resolveImports c (the_page w)) as U.
  destruct (update_script c (the_page w)) as [r p]. exact U.
Qed.

Lemma update_page h x w :
  document (the_page (snd (update h x w))) = document (the_page w)
  /\ (calls (the_page (snd (update h x w))) = calls (the_page w)
      \/ exists resolved,
           calls (the_page (snd (update h x w)))
           = calls (the_page w)
             ++ [PlaywrightUpdate
                   (getElementById "root" (document (the_page w))) resolved]).
Proof.
  unfold update. destruct (isJsxComponent x).
  - pose proof (innerUpdate_page x VUndefined w) as H.
    destruct (innerUpdate x VUndefined w) as [[r c] w']. exact H.
  - pose proof (innerUpdate_page (componentRef h) x w) as H.
    destruct (innerUpdate (componentRef h) x w) as [[r c] w']. exact H.
Qed.

Lemma step_targets r base a s :
  session_targets r base s -> session_targets r base (snd (step a s)).
Proof.
  intros [Hroot (new & Hcalls & Hall)]. unfold session_targets.
  destruct a as [ref options | i options | i | ordinal args]; cbn [step].
  - (* mount *)
    assert (Hr : getElementById "root" (document (the_page (the_world s))) = Some r
                 \/ (getElementById "root" (document (the_page (the_world s))) = None
                     /\ r = List.length (document (the_page (the_world s)))))
      by (destruct Hroot as [G | (G & L & _)]; auto).
    pose proof (mount_root ref options (the_world s) r Hr) as M.
    destruct (mount ref options (the_world s)) as [[h|e] w']; cbn [snd the_world handles].
    + destruct M as [G (res & hc & C)]. split; [now left|].
      exists (new ++ [PlaywrightMount res r hc]). split.
      * now rewrite C, Hcalls, app_assoc.
      * apply Forall_app. split; [exact Hall|]. now repeat constructor.
    + destruct M as [C D]. split.
      * destruct D as [D | G]; [|now left]. now rewrite D.
      * exists new. split; [now rewrite C | exact Hall].
  - (* update *)
    destruct (nth_error (handles s) i) as [h|] eqn:N;
      [|split; [exact Hroot | exists new; auto]].
    assert (G : getElementById "root" (document (the_page (the_world s))) = Some r).
    { destruct Hroot as [G | (_ & _ & E)]; [exact G|].
      rewrite E in N. now destruct i. }
    pose proof (update_page h options (the_world s)) as [D C].
    destruct (update h options (the_world s)) as [[res h'] w'].
    cbn [snd the_world handles] in *. split.
    + left. now rewrite D.
    + destruct C as [C | [c C]].
      * exists new. split; [now rewrite C | exact Hall].
      * exists (new ++ [PlaywrightUpdate (Some r) c]). split.
        -- now rewrite C, G, Hcalls, app_assoc.
        -- apply Forall_app. split; [exact Hall|]. now repeat constructor.
  - (* unmount *)
    destruct (nth_error (handles s) i) as [h|] eqn:N;
      [|split; [exact Hroot | exists new; auto]].
    assert (G : getElementById "root" (document (the_page (the_world s))) = Some r).
    { destruct Hroot as [G | (_ & _ & E)]; [exact G|].
      rewrite E in N. now destruct i. }
    cbn. split; [now left|].
    exists (new ++ [PlaywrightUnmount (Some r)]). split.
    + now rewrite G, Hcalls, app_assoc.
    + apply Forall_app. split; [exact Hall|]. now repeat constructor.
  - (* dispatch *)
    unfold dispatch.
    destruct (__ct_dispatch (boundCallbacksForMount (the_world s)) ordinal args);
      cbn; (split; [exact Hroot | exists new; auto]).
Qed.

Lemma run_test_targets r base test :
  forall s, session_targets r base s -> session_targets r base (run_test test s).
Proof.
  induction test as [|a rest IH]; intros s H; [exact H|].
  cbn [run_test]. pose proof (step_targets r base a s H) as H'.
  destruct (step a s) as [[u|e] s']; cbn [snd] in H'; auto.
Qed.

(** X12.  Whatever a test does with the fixture (mounts, updates, unmounts
    and dispatches in any number and order), every call that it makes into
    the framework names one and the same root element: the element that the
    document held when the test began, or the one that the first mount
    script appended. *)
Theorem one_root_for_all_calls (test : list action) (w : world) :
  let s := run_test test {| the_world := w; handles := [] |} in
  exists new,
    calls (the_page (the_world s)) = calls (the_page w) ++ new
    /\ Forall (targets (root_position (document (the_page w)))) new.
Proof.
  intros s.
  refine (proj2 (run_test_targets (root_position (document (the_page w)))
                   (calls (the_page w)) test
                   {| the_world := w; handles := [] |} _)).
  split.
  - unfold root_position. cbn [the_world handles].
    destruct (getElementById "root" (document (the_page w))); [now left|].
    right. auto.
  - exists []. cbn. split; [now rewrite app_nil_r | constructor].
Qed.

End OneRoot.

(** ** Built components are well formed *)

Section WellFormedProps.
Context {F : Type}.
Implicit Types (o : props F) (v : value F).

Lemma replace_prop_keys key v o : map fst (replace_prop key v o) = map fst o.
Proof.
  induction o as [|[k x] o IH]; [reflexivity|]. cbn [replace_prop].
  destruct (String.eqb k key); cbn [map fst]; [reflexivity | now rewrite IH].
Qed.

Lemma replace_prop_values key v o :
  well_formed v = true ->
  forallb (fun kv => well_formed (snd kv)) o = true ->
  forallb (fun kv => well_formed (snd kv)) (replace_prop key v o) = true.
Proof.
  intros Hv. induction o as [|[k x] o IH]; [reflexivity|].
  cbn [replace_prop forallb snd]. rewrite andb_true_iff. intros [H1 H2].
  destruct (String.eqb k key); cbn [forallb snd]; rewrite ?Hv, ?H1, ?H2; auto.
Qed.

Lemma insert_index_keys i key v o x :
  In x (map fst (insert_index i key v o)) <-> x = key \/ In x (map fst o).
Proof.
  induction o as [|[k y] o IH]; cbn [insert_index].
  - cbn. intuition.
  - destruct (array_index k) as [j|]; [destruct (j <? i)%N|]; cbn [map fst In];
      try rewrite IH; intuition.
Qed.

Lemma insert_index_distinct i key v o :
  ~ In key (map fst o) -> NoDup (map fst o) ->
  NoDup (map fst (insert_index i key v o)).
Proof.
  induction o as [|[k y] o IH]; cbn [insert_index]; intros Hk Hd.
  - cbn. constructor; [tauto | constructor].
  - assert (Hhere : NoDup (map fst ((key, v) :: (k, y) :: o)))
      by (cbn [map fst]; now constructor).
    destruct (array_index k) as [j|]; [destruct (j <? i)%N|]; try exact Hhere.
    cbn [map fst In] in *. inversion Hd; subst. constructor.
    + rewrite insert_index_keys. intros [E | E]; [apply Hk; now left | contradiction].
    + apply IH; tauto.
Qed.

Lemma insert_index_values i key v o :
  well_formed v = true ->
  forallb (fun kv => well_formed (snd kv)) o = true ->
  forallb (fun kv => well_formed (snd kv)) (insert_index i key v o) = true.
Proof.
  intros Hv. induction o as [|[k y] o IH]; cbn [insert_index forallb snd].
  - now rewrite Hv.
  - rewrite andb_true_iff. intros [H1 H2].
    destruct (array_index k) as [j|]; [destruct (j <? i)%N|];
      cbn [forallb snd]; rewrite ?Hv, ?H1, ?H2, ?IH; auto.
Qed.

(** [object[key] = v] on a well-formed object gives a well-formed object. *)
Lemma set_prop_well_formed key v o :
  well_formed (VObj o) = true -> well_formed v = true ->
  well_formed (VObj (set_prop key v o)) = true.
Proof.
  rewrite !well_formed_obj. intros [Hd Hv] Hwf. unfold set_prop, has_prop.
  destruct (get_prop key o) as [x|] eqn:G.
  - rewrite replace_prop_keys. split; [exact Hd | now apply replace_prop_values].
  - assert (Hk : ~ In key (map fst o)).
    { intros Hin. clear Hd Hv. induction o as [|[k y] o IH]; [contradiction|].
      cbn [get_prop] in G. destruct (String.eqb k key) eqn:E; [discriminate|].
      apply String.eqb_neq in E. destruct Hin as [Hin | Hin]; [contradiction|].
      now apply IH. }
    apply distinct_keys_NoDup in Hd. unfold add_prop.
    destruct (array_index key) as [i|].
    + split; [|now apply insert_index_values].
      apply distinct_keys_NoDup. now apply insert_index_distinct.
    + split.
      * apply distinct_keys_NoDup. rewrite map_app. cbn [map fst].
        clear G Hv. induction o as [|[k y] o IH]; cbn [map fst app].
        -- constructor; [intros [] | constructor].
        -- cbn [map fst In] in *. inversion Hd; subst. constructor.
           ++ rewrite in_app_iff. cbn [In]. intros [E | [E | []]]; [contradiction|].
              apply Hk. left. now symmetry.
           ++ apply IH; tauto.
      * rewrite forallb_app, Hv. cbn. now rewrite Hwf.
Qed.

Lemma spread_well_formed entries :
  forall o,
    well_formed (VObj o) = true ->
    forallb (fun kv => well_formed (snd kv)) entries = true ->
    well_formed (VObj (fold_left (fun o kv => set_prop (fst kv) (snd kv) o) entries o))
    = true.
Proof.
  induction entries as [|[k x] entries IH]; intros o Ho He; [exact Ho|].
  cbn [forallb snd] in He. apply andb_true_iff in He. destruct He as [H1 H2].
  cbn [fold_left fst snd]. apply IH; [|exact H2].
  now apply set_prop_well_formed.
Qed.
End WellFormedProps.

(** ** Components that are not declarative *)

Lemma createComponent_not_jsx {F} (component options descriptor : value F) :
  isJsxComponent component = false ->
  createComponent component options = Ok descriptor ->
  descriptor = VObj (spread_onto [("__pw_type", VStr "object-component");
                                  ("type", component)] (default_empty options)).
Proof.
  unfold createComponent, isJsxComponent. intros J C.
  destruct (member "__pw_type" component) as [tag|] eqn:T; [|discriminate].
  destruct (is_jsx_tag tag) eqn:E; [|now injection C as <-].
  rewrite andb_true_r in J.
  destruct component; try discriminate; cbn in T; inversion T; subst; discriminate.
Qed.

(** ** Callbacks through a test *)

(** X14.  A callback that is in the registry stays at its ordinal through
    everything that the test does afterwards (further mounts, updates,
    unmounts, dispatches, failing or not): a message with that ordinal
    calls it at any later point of the test. *)
Theorem callbacks_outlive_operations (ToNumber : string -> number)
  (resolveImports : rvalue -> option rvalue)
  (test : list action) (s : session_state) (i : nat) (f : fn) :
  nth_error (boundCallbacksForMount (the_world s)) i = Some f ->
  nth_error
    (boundCallbacksForMount (the_world (run_test ToNumber resolveImports test s))) i
  = Some f
  /\ forall args,
       __ct_dispatch
         (boundCallbacksForMount (the_world (run_test ToNumber resolveImports test s)))
         (Int (Z.of_nat i)) args
       = Ok [Invoke f args].
Proof.
  intros H.
  destruct (proj1 (run_test_evolves ToNumber resolveImports test s)) as [new E].
  assert (N : nth_error
                (boundCallbacksForMount
                   (the_world (run_test ToNumber resolveImports test s))) i = Some f).
  { rewrite E, nth_error_app1; [exact H|]. apply nth_error_Some. congruence. }
  split; [exact N|].
  intros args. unfold __ct_dispatch. cbn [element_at].
  destruct (0 <=? Z.of_nat i)%Z eqn:Z0; [|apply Z.leb_gt in Z0; lia].
  now rewrite Nat2Z.id, N.
Qed.

Lemma callbacks_outlive_operations_witness :
  __ct_dispatch
    (boundCallbacksForMount
       (the_world
          (run_test digits_to_number resolve_all
             [Mount counterRef clickOptions; Update 0 countPatch; Unmount 0]
             {| the_world := sampleWorld; handles := [] |})))
    (Int 1) [VStr "now"]
  = Ok [Invoke 7 [VStr "now"]].
Proof.
  exact (proj2 (callbacks_outlive_operations digits_to_number resolve_all
                  [Mount counterRef clickOptions; Update 0 countPatch; Unmount 0]
                  {| the_world := sampleWorld; handles := [] |} 1 7 eq_refl)
               [VStr "now"]).
Defined.

(** ** What an update delivers *)

Lemma spread_entries_values {F} (v : value F) :
  well_formed v = true ->
  forallb (fun kv => well_formed (snd kv)) (spread_entries v) = true.
Proof.
  destruct v; try reflexivity.
  - intros _. cbn [spread_entries]. generalize 0.
    induction s as [|c s IH]; intros i; [reflexivity|].
    cbn [string_entries forallb snd well_formed]. apply IH.
  - intros H. now apply well_formed_obj in H.
Qed.

Lemma built_well_formed (ref x : cvalue) :
  well_formed ref = true -> well_formed x = true ->
  well_formed (VObj (spread_onto [("__pw_type", VStr "object-component");
                                  ("type", ref)] (default_empty x))) = true.
Proof.
  intros Hr Hx. unfold spread_onto. apply spread_well_formed.
  - cbn [well_formed map fst forallb snd]. now rewrite Hr.
  - apply spread_entries_values. now destruct x.
Qed.

Lemma isJsxComponent_tokenize (v : cvalue) next :
  isJsxComponent (tokenize next v) = isJsxComponent v.
Proof.
  destruct v as [| | | | | |fields]; try reflexivity.
  rewrite tokenize_obj. unfold isJsxComponent. cbn [is_object typeof member].
  rewrite get_prop_tokenize.
  destruct (get_prop "__pw_type" fields) as [tag|]; [|reflexivity].
  cbn [option_map]. now destruct tag.
Qed.

Section UpdateDelivery.
Variable ToNumber : string -> number.
Variable resolveImports : rvalue -> option rvalue.

Local Abbreviation innerUpdate := (innerUpdate ToNumber resolveImports).
Local Abbreviation innerMount := (innerMount ToNumber resolveImports).
Local Abbreviation mount := (mount ToNumber resolveImports).
Local Abbreviation update := (update ToNumber resolveImports).
Local Abbreviation update_delivers := (update_delivers ToNumber resolveImports).

Lemma innerUpdate_delivers ref options w component rootElement :
  createComponent ref options = Ok component ->
  well_formed component = true ->
  getElementById "root" (document (the_page w)) = Some rootElement ->
  exists marshalled sent unwrapped,
    wrapFunctions component (boundCallbacksForMount w)
    = Ok (marshalled, boundCallbacksForMount w ++ callables component)
    /\ transfer marshalled = Some sent
    /\ unwrapFunctions ToNumber sent = Ok unwrapped
    /\ match resolveImports unwrapped with
       | Some resolved =>
           fst (fst (innerUpdate ref options w)) = Ok tt
           /\ snd (innerUpdate ref options w)
              = with_page
                  (with_callbacks w (boundCallbacksForMount w ++ callables component))
                  (with_call (the_page w)
                     (PlaywrightUpdate (Some rootElement) resolved))
       | None =>
           fst (fst (innerUpdate ref options w)) = Throw (Rejected "resolveImports")
           /\ snd (innerUpdate ref options w)
              = with_callbacks w (boundCallbacksForMount w ++ callables component)
       end.
Proof.
  intros C Hwf G.
  pose proof (createComponent_object _ _ _ C) as Hobj.
  destruct component as [| | | | | |fields]; try discriminate.
  destruct (component_in_page ToNumber fields (boundCallbacksForMount w) Hwf)
    as (W & T & U & _).
  eexists _, _, _. split; [exact W|]. split; [exact T|]. split; [exact U|].
  unfold innerUpdate. rewrite createComponent_default, C, W, T.
  cbn [with_callbacks the_page]. unfold update_script. rewrite U.
  destruct (resolveImports _) as [resolved|]; cbn [fst snd].
  - rewrite G. split; reflexivity.
  - split; reflexivity.
Qed.

Lemma update_delivers_built h x w component rootElement :
  update_component h x = Ok component ->
  well_formed component = true ->
  getElementById "root" (document (the_page w)) = Some rootElement ->
  update_delivers h x w component rootElement.
Proof.
  unfold update_component, update_delivers. intros C Hwf G.
  destruct (update_projections ToNumber resolveImports h x w) as [E1 E2].
  rewrite E1, E2. clear E1 E2.
  destruct (isJsxComponent x); now apply innerUpdate_delivers.
Qed.

(** C9, amended.  [handle.update] takes a declarative component or an
    options bag, and the document holds the root element.  A declarative
    component is itself what is delivered.  For options, a handle that was
    mounted from a type reference delivers a fresh object component whose
    type is that reference, with the options merged over it, while a handle
    that was mounted from a declarative component drops the options and
    delivers the component it keeps.  To deliver is: the component is
    marshalled against the registry, which grows by its callable values, and
    un-marshalled in the page; if the registry of the page resolves it the
    update succeeds, and the update entry point has been called once, with
    the root element and the resolved component, and nothing else in the
    page has changed; if the registry rejects it the update is rejected and
    the page is as it was. *)
Theorem update_descriptor_or_patch (h : handle) (x : cvalue) (w : world)
  (rootElement : nat) :
  getElementById "root" (document (the_page w)) = Some rootElement ->
  well_formed x = true ->
  (isJsxComponent x = true -> update_delivers h x w x rootElement)
  /\ (isJsxComponent x = false ->
      is_object (componentRef h) = true ->
      isJsxComponent (componentRef h) = false ->
      well_formed (componentRef h) = true ->
      update_delivers h x w
        (VObj (spread_onto [("__pw_type", VStr "object-component");
                            ("type", componentRef h)] (default_empty x)))
        rootElement)
  /\ (isJsxComponent x = false ->
      isJsxComponent (componentRef h) = true ->
      well_formed (componentRef h) = true ->
      update_delivers h x w (componentRef h) rootElement).
Proof.
  intros G Hx. split; [|split].
  - intros J. apply update_delivers_built; auto.
    unfold update_component. rewrite J.
    unfold createComponent. now rewrite (isJsxComponent_tag x J).
  - intros J Hobj Href Hwf. apply update_delivers_built; auto.
    + unfold update_component. rewrite J.
      destruct (not_jsx_tag (componentRef h) Hobj Href) as (tag & T & N).
      unfold createComponent. now rewrite T, N.
    + now apply built_well_formed.
  - intros J Href Hwf. apply update_delivers_built; auto.
    unfold update_component. rewrite J.
    unfold createComponent. now rewrite (isJsxComponent_tag (componentRef h) Href).
Qed.

(** X2.  A handle that comes from a mount of a declarative component keeps
    that component as the mount marshalled it, with tokens where its
    callbacks were.  Options given to [update] of such a handle are dropped:
    the kept component is delivered again, and since nothing callable is
    left in it the registry does not grow. *)
Theorem update_patch_after_jsx (ref options x : cvalue) (w0 w1 w : world)
  (h : handle) (rootElement : nat) :
  isJsxComponent ref = true ->
  well_formed ref = true ->
  mount ref options w0 = (Ok h, w1) ->
  isJsxComponent x = false ->
  getElementById "root" (document (the_page w)) = Some rootElement ->
  componentRef h = tokenize (List.length (boundCallbacksForMount w0)) ref
  /\ update_delivers h x w (componentRef h) rootElement
  /\ boundCallbacksForMount (snd (update h x w)) = boundCallbacksForMount w.
Proof.
  intros Jr Hr M Jx G.
  assert (E : componentRef h = tokenize (List.length (boundCallbacksForMount w0)) ref).
  { unfold mount, innerMount in M.
    assert (C : createComponent ref (default_empty options) = Ok ref).
    { unfold createComponent. now rewrite (isJsxComponent_tag ref Jr). }
    rewrite C in M.
    assert (Hobj : is_object ref = true).
    { unfold isJsxComponent in Jr. now apply andb_true_iff in Jr. }
    rewrite (wrapFunctions_spec ref (boundCallbacksForMount w0) Hr Hobj) in M.
    assert (A : componentRef_after ref (default_empty options)
                  (tokenize (List.length (boundCallbacksForMount w0)) ref)
                = tokenize (List.length (boundCallbacksForMount w0)) ref).
    { unfold componentRef_after. destruct ref; try discriminate. now rewrite Jr. }
    rewrite A in M. cbn [with_callbacks the_page] in M.
    destruct (negb (playwrightMount (the_page w0))); [discriminate|].
    destruct (hooksConfig_after _ _ _); [|discriminate].
    destruct (transfer _); [|discriminate].
    destruct (transfer _); [|discriminate].
    destruct (mount_script _ _ _ _ _) as [[sel|e] p]; [|discriminate].
    now injection M as <- _. }
  assert (FF : function_free (componentRef h) = true)
    by (rewrite E; apply function_free_tokenize).
  assert (D : update_delivers h x w (componentRef h) rootElement).
  { apply update_delivers_built; auto.
    - unfold update_component. rewrite Jx. unfold createComponent.
      rewrite (isJsxComponent_tag (componentRef h)); [reflexivity|].
      now rewrite E, isJsxComponent_tokenize.
    - now rewrite E, well_formed_tokenize. }
  split; [exact E|]. split; [exact D|].
  destruct D as (m & s & u & _ & _ & _ & D).
  rewrite (callables_function_free _ FF), app_nil_r in D.
  destruct (resolveImports u); destruct D as [_ ->]; reflexivity.
Qed.

End UpdateDelivery.

Lemma update_descriptor_or_patch_witness :
  update_delivers digits_to_number resolve_all counterHandle countPatch counterWorld
    (VObj (spread_onto [("__pw_type", VStr "object-component"); ("type", counterRef)]
             countPatch)) 0.
Proof.
  apply (proj1 (proj2 (update_descriptor_or_patch digits_to_number resolve_all
                         counterHandle countPatch counterWorld 0 eq_refl eq_refl)));
    reflexivity.
Defined.

(** C9 as stated fails: the handle comes from a mount of a declarative
    component, the update is given options that are no declarative
    component, and what the update entry point receives is the component of
    the mount, without the options. *)
Lemma update_drops_patch_after_jsx :
  isJsxComponent countPatch = false
  /\ mount digits_to_number resolve_all buttonJsx VUndefined freshWorld
     = (Ok buttonHandle,
        {| boundCallbacksForMount := [3];
           the_page :=
             {| playwrightMount := true;
                document := [root_div];
                calls :=
                  [PlaywrightMount
                     (VObj [("__pw_type", VStr "jsx"); ("type", VStr "button");
                            ("props", VObj [("onClick", VFunc (Dispatcher (Int 0)))])])
                     0 VUndefined] |};
           events := [] |})
  /\ update digits_to_number resolve_all buttonHandle countPatch buttonWorld
     = (Ok tt, buttonHandle,
        {| boundCallbacksForMount := [3];
           the_page :=
             {| playwrightMount := true;
                document := [root_div];
                calls :=
                  [PlaywrightUpdate (Some 0)
                     (VObj [("__pw_type", VStr "jsx"); ("type", VStr "button");
                            ("props", VObj [("onClick", VFunc (Dispatcher (Int 0)))])])] |};
           events := [] |}).
Proof. repeat split. Qed.

Lemma update_patch_after_jsx_witness :
  componentRef buttonHandle = tokenize 0 buttonJsx
  /\ update_delivers digits_to_number resolve_all buttonHandle countPatch buttonWorld
       (componentRef buttonHandle) 0.
Proof.
  destruct (update_patch_after_jsx digits_to_number resolve_all buttonJsx VUndefined
              countPatch freshWorld _ buttonWorld _ 0
              eq_refl eq_refl eq_refl eq_refl eq_refl) as (H1 & H2 & _).
  split; [exact H1 | exact H2].
Defined.
